(** * Incremental fetch and merge of the Berlin wastewater dataset

    A shallow embedding of [fetchData.js] (the Node script that extends
    [data/data.json] month by month): the date helpers [parseCustomDate],
    [formatDate] and [getNextMonthInterval], the deduplication
    [filterDuplicates], the store reader [readExistingData], the fetcher
    [fetchData], [findLatestExtractionDate] and the driver
    [fetchAllDataIncremental].

    JavaScript time values are integers of milliseconds since the epoch
    ([Z]); the host time zone is a fixed offset [tz] in milliseconds
    (local time = UTC time + [tz]). Calendar arithmetic follows the
    ECMAScript definitions (Day, MakeDay, YearFromTime, MonthFromTime,
    DateFromTime), computed with the usual era-based civil-date
    conversion. *)

From Stdlib Require Import ZArith List String Ascii Bool Lia Sorted Permutation.
Import ListNotations.

Open Scope Z_scope.
Set Warnings "-register-all".


(* ------------------------------------------------------------------ *)
(** ** Calendar arithmetic of ECMAScript dates *)

Definition msPerDay : Z := 86400000.

(** Day(t) = floor(t / msPerDay). *)
Definition Day (t : Z) : Z := t / msPerDay.

(** Day number within a 400-year era, from the year of era, the
    March-based month and the day of month. *)
Definition doe_of (yoe mp d : Z) : Z :=
  yoe * 365 + yoe / 4 - yoe / 100 + (153 * mp + 2) / 5 + d - 1.

(** Days since 1970-01-01 of the proleptic Gregorian date y-m-d
    (m in 1..12, d from 1). *)
Definition days_from_civil (y m d : Z) : Z :=
  let y' := if m <=? 2 then y - 1 else y in
  let era := y' / 400 in
  let yoe := y' - era * 400 in
  let mp := (m + 9) mod 12 in
  era * 146097 + doe_of yoe mp d - 719468.

(** The inverse inside one era: from the day of era to
    (year of era, month 1..12, day of month). *)
Definition civil_of_doe (doe : Z) : Z * Z * Z :=
  let yoe := (doe - doe / 1460 + doe / 36524 - doe / 146096) / 365 in
  let doy := doe - (365 * yoe + yoe / 4 - yoe / 100) in
  let mp := (5 * doy + 2) / 153 in
  let d := doy - (153 * mp + 2) / 5 + 1 in
  let m := if mp <? 10 then mp + 3 else mp - 9 in
  (yoe, m, d).

(** (year, month 1..12, day) of a day number. *)
Definition civil_from_days (z : Z) : Z * Z * Z :=
  let z' := z + 719468 in
  let era := z' / 146097 in
  let doe := z' - era * 146097 in
  let '(yoe, m, d) := civil_of_doe doe in
  (yoe + era * 400 + (if m <=? 2 then 1 else 0), m, d).

(** YearFromTime, MonthFromTime (0-based) and DateFromTime. *)
Definition YearFromTime (t : Z) : Z := let '(y, _, _) := civil_from_days (Day t) in y.
Definition MonthFromTime (t : Z) : Z := let '(_, m, _) := civil_from_days (Day t) in m - 1.
Definition DateFromTime (t : Z) : Z := let '(_, _, d) := civil_from_days (Day t) in d.

(** MakeDay(year, month, date) with a 0-based month that may overflow
    into the following years. *)
Definition MakeDay (year month date : Z) : Z :=
  let ym := year + month / 12 in
  let mn := month mod 12 in
  days_from_civil ym (mn + 1) 1 + date - 1.

(** The year the Date constructor [new Date(y, m, d)] uses: an integer
    year 0..99 is read as 1900 + y. *)
Definition date_ctor_year (y : Z) : Z := if (0 <=? y) && (y <=? 99) then 1900 + y else y.

Section Zone.
(** The host time zone offset, in milliseconds east of UTC. *)
Variable tz : Z.

(** [getFullYear] and [getMonth] read local time. *)
Definition getFullYear (t : Z) : Z := YearFromTime (t + tz).
Definition getMonth (t : Z) : Z := MonthFromTime (t + tz).

(** [new Date(y, m, d)]: the local midnight of MakeDay(yr, m, d), as a
    UTC time value, where a year argument 0..99 stands for 1900 + y. *)
Definition new_Date_local (y m d : Z) : Z := MakeDay (date_ctor_year y) m d * msPerDay - tz.

End Zone.

(* ------------------------------------------------------------------ *)
(** ** Strings *)

Definition digit_char (d : Z) : ascii := ascii_of_nat (48 + Z.to_nat d).

(** [n]-digit zero-padded decimal, most significant digit first. *)
Fixpoint pad (n : nat) (x : Z) : string :=
  match n with
  | O => EmptyString
  | S n' => String (digit_char (x / 10 ^ Z.of_nat n')) (pad n' (x mod 10 ^ Z.of_nat n'))
  end.

(** [Date.prototype.toISOString] cut at "T" ([formatDate]): the UTC
    calendar date as YYYY-MM-DD, with the expanded +YYYYYY / -YYYYYY year
    outside 0..9999. *)
Definition iso_year (y : Z) : string :=
  if (0 <=? y) && (y <=? 9999) then pad 4 y
  else String (if y <? 0 then "-"%char else "+"%char) (pad 6 (Z.abs y)).

Definition format_ymd (ymd : Z * Z * Z) : string :=
  let '(y, m, d) := ymd in
  (iso_year y ++ "-" ++ pad 2 m ++ "-" ++ pad 2 d)%string.

Definition formatDate (t : Z) : string := format_ymd (civil_from_days (Day t)).

(** [String.prototype.split(".")]. *)
Fixpoint split_dot (s : string) : list string :=
  match s with
  | EmptyString => [EmptyString]
  | String c rest =>
      let parts := split_dot rest in
      if Ascii.eqb c "."%char then EmptyString :: parts
      else match parts with
           | p :: ps => String c p :: ps
           | [] => [String c EmptyString]
           end
  end.

Definition digit_val (c : ascii) : option Z :=
  let n := Z.of_nat (nat_of_ascii c) in
  if (48 <=? n) && (n <=? 57) then Some (n - 48) else None.

(** [new Date(s)] on a string: the date-only ISO form YYYY-MM-DD is read
    as UTC midnight; month 01..12 and day 01..31 are accepted, a day past
    the month's end rolls over as in MakeDay. Any other string is
    modelled as Invalid Date ([None], the NaN time value). V8 hands such
    strings to its own fallback parser, which accepts some of them (e.g.
    2023-4-5); that parser is not embedded, so what is proved of a string
    this definition rejects holds for the code only where the fallback
    rejects it too. *)
Definition parse_iso_date (s : string) : option Z :=
  match s with
  | String y1 (String y2 (String y3 (String y4 (String h1
      (String m1 (String m2 (String h2 (String d1 (String d2 EmptyString))))))))) =>
      if Ascii.eqb h1 "-"%char && Ascii.eqb h2 "-"%char then
        match digit_val y1, digit_val y2, digit_val y3, digit_val y4,
              digit_val m1, digit_val m2, digit_val d1, digit_val d2 with
        | Some a1, Some a2, Some a3, Some a4, Some b1, Some b2, Some c1, Some c2 =>
            let year := a1 * 1000 + a2 * 100 + a3 * 10 + a4 in
            let month := b1 * 10 + b2 in
            let day := c1 * 10 + c2 in
            if (1 <=? month) && (month <=? 12) && (1 <=? day) && (day <=? 31)
            then Some (MakeDay year (month - 1) day * msPerDay)
            else None
        | _, _, _, _, _, _, _, _ => None
        end
      else None
  | _ => None
  end.

(** [parseCustomDate]: [const [day, month, year] = dateStr.split(".")]
    (a missing part is [undefined]) then [new Date(`${year}-${month}-${day}`)]. *)
Definition parseCustomDate (dateStr : string) : option Z :=
  let parts := split_dot dateStr in
  let day := nth 0 parts "undefined"%string in
  let month := nth 1 parts "undefined"%string in
  let year := nth 2 parts "undefined"%string in
  parse_iso_date (year ++ "-" ++ month ++ "-" ++ day)%string.

Record interval := { startDate : string; endDate : string }.

(** [getNextMonthInterval]; [None] is the RangeError that
    [toISOString] raises on an Invalid Date. *)
Definition getNextMonthInterval (tz : Z) (lastDateStr : string) : option interval :=
  match parseCustomDate lastDateStr with
  | None => None
  | Some lastDate =>
      let nextMonthStart :=
        new_Date_local tz (getFullYear tz lastDate) (getMonth tz lastDate + 1) 1 in
      let nextNextMonthStart :=
        new_Date_local tz (getFullYear tz nextMonthStart) (getMonth tz nextMonthStart + 1) 1 in
      let nextMonthEnd := nextNextMonthStart - 1 in
      Some {| startDate := formatDate nextMonthStart; endDate := formatDate nextMonthEnd |}
  end.

(** JavaScript [a > b] on strings (code-unit order; ASCII here). *)
Definition str_gt (a b : string) : bool :=
  match String.compare a b with Gt => true | _ => false end.

(** The clipped window of the driver: [endDate > todayStr ? todayStr : endDate]. *)
Definition clip_window (todayStr : string) (w : interval) : interval :=
  {| startDate := startDate w;
     endDate := if str_gt (endDate w) todayStr then todayStr else endDate w |}.

(* ------------------------------------------------------------------ *)
(** ** Records and JSON values *)

(** The primitive JSON values a record field may hold; [===] on them is
    structural equality (JSON numbers are modelled as integers, so there
    is no NaN). *)
Inductive prim :=
| PUndefined | PNull | PBool (b : bool) | PNum (z : Z) | PStr (s : string).

Definition strict_eq (a b : prim) : bool :=
  match a, b with
  | PUndefined, PUndefined | PNull, PNull => true
  | PBool x, PBool y => Bool.eqb x y
  | PNum x, PNum y => Z.eqb x y
  | PStr x, PStr y => String.eqb x y
  | _, _ => false
  end.

(** One measurement submission; [results] stands for the parameter
    panels, carried along untouched. *)
Record record := {
  sample_number : prim;
  extraction_date : string;
  measuring_point : string;
  results : list (string * list string) }.

(** JSON documents: the store file and the API response. *)
Inductive json :=
| JNull | JBool (b : bool) | JNum (z : Z) | JStr (s : string)
| JArr (l : list record)
| JObj (fields : list (string * json)).

(** Property read on a parsed object: [JSON.parse] keeps the last of
    repeated keys. *)
Fixpoint js_get (fields : list (string * json)) (k : string) : option json :=
  match fields with
  | [] => None
  | (k', v) :: rest =>
      match js_get rest k with
      | Some w => Some w
      | None => if String.eqb k k' then Some v else None
      end
  end.

Definition truthy (v : json) : bool :=
  match v with
  | JNull => false
  | JBool b => b
  | JNum z => negb (Z.eqb z 0)
  | JStr s => negb (String.eqb s "")
  | JArr _ | JObj _ => true
  end.

(* ------------------------------------------------------------------ *)
(** ** filterDuplicates *)

Definition same_entry (existingEntry newEntry : record) : bool :=
  strict_eq (sample_number existingEntry) (sample_number newEntry) &&
  String.eqb (extraction_date existingEntry) (extraction_date newEntry).

Definition filterDuplicates (existingData newData : list record) : list record :=
  List.filter
    (fun newEntry => negb (existsb (fun existingEntry => same_entry existingEntry newEntry) existingData))
    newData.

(* ------------------------------------------------------------------ *)
(** ** Array.prototype.sort with a comparator *)

(** A comparator's result: [None] is NaN, which SortCompare reads as +0. *)
Definition SortCompare (comparefn : record -> record -> option Z) (x y : record) : Z :=
  match comparefn x y with Some v => v | None => 0 end.

(** The sort is stable (ECMAScript 2019); for a consistent comparator every
    stable sort gives the same array, here a stable insertion sort: an
    element goes before the first element of the sorted prefix that is
    strictly greater. A comparator that is not consistent (a NaN from a
    date that does not parse) leaves the order implementation-defined:
    V8's TimSort and this insertion sort may then order the array
    differently, and both return a permutation of it. *)
Fixpoint insert_sorted (comparefn : record -> record -> option Z) (x : record) (l : list record)
  : list record :=
  match l with
  | [] => [x]
  | y :: ys => if SortCompare comparefn x y <? 0 then x :: y :: ys
               else y :: insert_sorted comparefn x ys
  end.

Definition js_sort (comparefn : record -> record -> option Z) (l : list record) : list record :=
  fold_left (fun acc x => insert_sorted comparefn x acc) l [].

(** [parseCustomDate(a.extraction_date) - parseCustomDate(b.extraction_date)] *)
Definition by_date_asc (a b : record) : option Z :=
  match parseCustomDate (extraction_date a), parseCustomDate (extraction_date b) with
  | Some x, Some y => Some (x - y)
  | _, _ => None
  end.

(** [parseCustomDate(b.extraction_date) - parseCustomDate(a.extraction_date)] *)
Definition by_date_desc (a b : record) : option Z := by_date_asc b a.

(** [findLatestExtractionDate]: [None] is [null]. *)
Definition findLatestExtractionDate (data : list record) : option string :=
  if Nat.eqb (List.length data) 0 then None
  else match js_sort by_date_desc data with
       | r :: _ => Some (extraction_date r)
       | [] => None
       end.

(* ------------------------------------------------------------------ *)
(** ** The store and the remote API *)

(** The state of [data/data.json]. A written file holds the JSON text
    of the array; [JSON.stringify] followed by [JSON.parse] gives the
    array back, so the file is modelled by the parsed document. *)
Inductive store_file :=
| FileAbsent
| FileUnreadable
| FileText (contents : option json).   (* [None]: not valid JSON *)

(** [readExistingData]: every failure is caught and gives []. *)
Definition readExistingData (f : store_file) : list record :=
  match f with
  | FileText (Some (JArr data)) => data
  | _ => []
  end.

(** What [fetch(API_URL, ...)] produces: a rejected promise, or a
    response with its [ok] flag, its status and its body text read by
    [response.json()] ([None]: not valid JSON). *)
Inductive fetch_result :=
| TransportError
| Response (ok : bool) (status : Z) (body : option json).

(** The remote API, as a function of the requested window. *)
Definition api := string -> string -> fetch_result.

(** [fetchData]: [None] is a thrown error (rejected fetch, [!response.ok],
    [response.json()] rejecting, [null.body], or [!json.body]). *)
Definition fetchData (callApi : api) (startDate endDate : string) : option json :=
  match callApi startDate endDate with
  | TransportError => None
  | Response ok _ body =>
      if negb ok then None
      else match body with
           | None => None
           | Some JNull => None
           | Some (JObj fields) =>
               match js_get fields "body" with
               | Some v => if truthy v then Some v else None
               | None => None
               end
           | Some _ => None
           end
  end.

(* ------------------------------------------------------------------ *)
(** ** fetchAllDataIncremental *)

(** What [fs.writeFile("data/data.json", ...)] does with the merged array:
    it completes and the file holds the array, or it rejects (no [data/]
    directory, no permission, a full disk, ...) and leaves some file
    behind. *)
Inductive write_result :=
| WriteDone
| WriteFailed (left_behind : store_file).

(** The file system, as a function of the array to write. *)
Definition fs_write := list record -> write_result.

(** A file system on which every write completes. *)
Definition write_ok : fs_write := fun _ => WriteDone.

(** What one run leaves behind: the windows sent to the API, the store
    file afterwards, whether an [fs.writeFile] completed, and the exit
    status ([process.exit(1)] in the catch block, 0 when the function
    returns). *)
Record outcome := {
  requests : list interval;
  store : store_file;
  wrote : bool;
  exit_code : Z }.

Definition bootstrap_window : interval :=
  {| startDate := "2022-02-01"; endDate := "2022-02-28" |}.

(** The window computation of the driver; [None] is a thrown error
    ([!latestExtractionDate], or the RangeError of an Invalid Date). *)
Definition next_window (tz : Z) (todayStr : string) (existingData : list record) : option interval :=
  if Nat.eqb (List.length existingData) 0 then Some bootstrap_window
  else match findLatestExtractionDate existingData with
       | None => None
       | Some latestExtractionDate =>
           if String.eqb latestExtractionDate "" then None
           else option_map (clip_window todayStr) (getNextMonthInterval tz latestExtractionDate)
       end.

(** The merge: [existingData.concat(uniqueNewData)] sorted ascending. *)
Definition merge (existingData uniqueNewData : list record) : list record :=
  js_sort by_date_asc (existingData ++ uniqueNewData).

(** One run, at time [now] (ms since the epoch), in time zone [tz], with
    store file [file], remote API [callApi] and file system [writeFile].
    [newData.filter] on a body that is not an array is a TypeError; a
    rejected [fs.writeFile] is caught like every other error. *)
Definition fetchAllDataIncremental (tz now : Z) (callApi : api) (writeFile : fs_write)
    (file : store_file) : outcome :=
  let existingData := readExistingData file in
  let todayStr := formatDate now in
  match next_window tz todayStr existingData with
  | None => {| requests := []; store := file; wrote := false; exit_code := 1 |}
  | Some w =>
      match fetchData callApi (startDate w) (endDate w) with
      | Some (JArr newData) =>
          let uniqueNewData := filterDuplicates existingData newData in
          if Nat.eqb (List.length uniqueNewData) 0 then
            {| requests := [w]; store := file; wrote := false; exit_code := 0 |}
          else
            let combinedData := merge existingData uniqueNewData in
            match writeFile combinedData with
            | WriteDone =>
                {| requests := [w]; store := FileText (Some (JArr combinedData));
                   wrote := true; exit_code := 0 |}
            | WriteFailed left_behind =>
                {| requests := [w]; store := left_behind; wrote := false; exit_code := 1 |}
            end
      | _ => {| requests := [w]; store := file; wrote := false; exit_code := 1 |}
      end
  end.

(* ------------------------------------------------------------------ *)
(** ** Arrays as shared objects

    The driver's arrays live in a heap of array objects addressed by
    index; [slice], [filter] and [concat] allocate a new array, [sort]
    rewrites its receiver in place. Records are never written by the
    script, so array cells hold record values. *)
Module Heap.

Definition heap := list (list record).
Definition loc := nat.

Definition alloc (h : heap) (v : list record) : loc * heap := (List.length h, h ++ [v]).

Fixpoint update (h : heap) (a : loc) (v : list record) : heap :=
  match h, a with
  | [], _ => []
  | _ :: rest, O => v :: rest
  | x :: rest, S a' => x :: update rest a' v
  end.

(** [arr.sort(comparefn)]: sorts the receiver in place. *)
Definition sort_in_place (comparefn : record -> record -> option Z) (h : heap) (a : loc)
  : option heap :=
  match nth_error h a with
  | Some v => Some (update h a (js_sort comparefn v))
  | None => None
  end.

(** [findLatestExtractionDate(data)]: [data.slice().sort(...)], then
    [sorted[0].extraction_date]. *)
Definition findLatestExtractionDate (h : heap) (data : loc) : option (option string * heap) :=
  match nth_error h data with
  | None => None
  | Some v =>
      if Nat.eqb (List.length v) 0 then Some (None, h)
      else
        let '(copy, h1) := alloc h v in
        match sort_in_place by_date_desc h1 copy with
        | None => None
        | Some h2 =>
            match nth_error h2 copy with
            | Some (r :: _) => Some (Some (extraction_date r), h2)
            | _ => None
            end
        end
  end.

(** [filterDuplicates(existingData, newData)]: [newData.filter(...)]
    allocates the result, [existingData.some(...)] only reads. *)
Definition filterDuplicates (h : heap) (existingData newData : loc) : option (loc * heap) :=
  match nth_error h existingData, nth_error h newData with
  | Some e, Some n => Some (alloc h (List.filter
      (fun newEntry => negb (existsb (fun existingEntry => same_entry existingEntry newEntry) e)) n))
  | _, _ => None
  end.

(** [a.concat(b)] allocates the concatenation. *)
Definition concat (h : heap) (a b : loc) : option (loc * heap) :=
  match nth_error h a, nth_error h b with
  | Some x, Some y => Some (alloc h (x ++ y))
  | _, _ => None
  end.

(** The in-memory part of [fetchAllDataIncremental] on the array
    [existingData]: [findLatestExtractionDate] (only when the array is not
    empty), the array [newData] returned by the fetch (a fresh array),
    [filterDuplicates], and, when new records are left, [concat] and the
    in-place sort of the result. Gives the array to be written ([None]
    when the run returns early) and the heap before [fs.writeFile]. *)
Definition in_memory_steps (h : heap) (existingData : loc) (fetched : list record)
  : option (option loc * heap) :=
  match nth_error h existingData with
  | None => None
  | Some e =>
      let h1 :=
        if Nat.eqb (List.length e) 0 then Some h
        else match findLatestExtractionDate h existingData with
             | Some (Some _, h') => Some h'
             | _ => None
             end in
      match h1 with
      | None => None
      | Some h1 =>
          let '(newData, h1') := alloc h1 fetched in
          match filterDuplicates h1' existingData newData with
          | None => None
          | Some (u, h2) =>
              match nth_error h2 u with
              | Some [] => Some (None, h2)
              | Some _ =>
                  match concat h2 existingData u with
                  | None => None
                  | Some (combined, h3) =>
                      match sort_in_place by_date_asc h3 combined with
                      | Some h4 => Some (Some combined, h4)
                      | None => None
                      end
                  end
              | None => None
              end
          end
      end
  end.

End Heap.

(* ------------------------------------------------------------------ *)
(** ** Properties used in the statements *)

(** The identity key of a record. *)
Definition key (r : record) : prim * string := (sample_number r, extraction_date r).

Definition no_dup_keys (l : list record) : Prop := NoDup (map key l).

(** Ascending by parsed [extraction_date]. *)
Definition date_le (a b : record) : Prop :=
  exists x y, parseCustomDate (extraction_date a) = Some x /\
              parseCustomDate (extraction_date b) = Some y /\ x <= y.

Definition dataset_sorted (l : list record) : Prop := Sorted date_le l.

Definition dates_parse (l : list record) : Prop :=
  forall r, In r l -> parseCustomDate (extraction_date r) <> None.

(** The response carries a top-level [body] property. *)
Definition has_envelope (r : fetch_result) : Prop :=
  match r with
  | Response _ _ (Some (JObj fields)) => js_get fields "body" <> None
  | _ => False
  end.

Definition prim_eq_dec : forall x y : prim, {x = y} + {x <> y}.
Proof. decide equality; auto using string_dec, Z.eq_dec, bool_dec. Defined.

Definition record_eq_dec : forall x y : record, {x = y} + {x <> y}.
Proof.
  decide equality.
  - apply list_eq_dec. intros [p1 q1] [p2 q2].
    destruct (string_dec p1 p2), (list_eq_dec string_dec q1 q2); [left|right..]; congruence.
  - apply string_dec.
  - apply string_dec.
  - apply prim_eq_dec.
Defined.

(** Concrete records and responses for the worked cases. *)
Definition sample (sn : Z) (d : string) : record :=
  {| sample_number := PNum sn; extraction_date := d;
     measuring_point := "Ruhleben"; results := [] |}.
Definition rec0 : record := sample 1001 "15.03.2023".
Definition rec1 : record := sample 1002 "16.03.2023".

(** An API that answers every window with [{"body": l}]. *)
Definition api_returning (l : list record) : api :=
  fun _ _ => Response true 200 (Some (JObj [("body"%string, JArr l)])).

(** 2023-04-10T12:00:00Z. *)
Definition noon_2023_04_10 : Z := 1681128000000.

(* ------------------------------------------------------------------ *)
(** ** Finite checks over one 400-year era *)

(** [f] holds on [base, base + 2^k). *)
Fixpoint all_pow (k : nat) (f : Z -> bool) (base : Z) : bool :=
  match k with
  | O => f base
  | S k' => all_pow k' f base && all_pow k' f (base + 2 ^ Z.of_nat k')
  end.

(** Lexicographic order on (year, month, day). *)
Definition lex_ltb (a b : Z * Z * Z) : bool :=
  let '(y1, m1, d1) := a in
  let '(y2, m2, d2) := b in
  (y1 <? y2) || ((y1 =? y2) && ((m1 <? m2) || ((m1 =? m2) && (d1 <? d2)))).

Definition ymd_eqb (a b : Z * Z * Z) : bool :=
  let '(y1, m1, d1) := a in
  let '(y2, m2, d2) := b in
  (y1 =? y2) && (m1 =? m2) && (d1 =? d2).

(** The civil date of a day of era, with the Gregorian year counted from
    the era's start. *)
Definition adj_of (c : Z * Z * Z) : Z * Z * Z :=
  let '(yoe, m, d) := c in (yoe + (if m <=? 2 then 1 else 0), m, d).

Definition civil_adj (doe : Z) : Z * Z * Z := adj_of (civil_of_doe doe).

Definition range_ok (c : Z * Z * Z) : bool :=
  let '(yoe, m, d) := c in
  (0 <=? yoe) && (yoe <=? 399) && (1 <=? m) && (m <=? 12) && (1 <=? d) && (d <=? 31).

(** From [doe] on, [n] more days: each has a month in 1..12 and a day in
    1..31, and each next day has a later date; [cur] is the date of
    [doe]. *)
Fixpoint scan_era (n : nat) (doe : Z) (cur : Z * Z * Z) : bool :=
  range_ok cur &&
  match n with
  | O => true
  | S n' =>
      let nxt := civil_of_doe (doe + 1) in
      lex_ltb (adj_of cur) (adj_of nxt) && scan_era n' (doe + 1) nxt
  end.

Definition shift_year (c : Z) (ymd : Z * Z * Z) : Z * Z * Z :=
  let '(y, m, d) := ymd in (y + c, m, d).

(** The first of every month of an era converts back to itself. *)
Definition first_ok (z : Z) : bool :=
  (4799 <? z) ||
  (let yoe := z / 12 in
   let m := z mod 12 + 1 in
   let doe := doe_of yoe ((m + 9) mod 12) 1 in
   (0 <=? doe) && (doe <? 146097) && ymd_eqb (civil_of_doe doe) (yoe, m, 1)).

(** The (year, month 1..12) of the month after (y, m). *)
Definition next_month (ym : Z * Z) : Z * Z :=
  let '(y, m) := ym in if m =? 12 then (y + 1, 1) else (y, m + 1).

(** The Gregorian calendar, for the statements about dates. *)
Definition leap_year (y : Z) : bool :=
  (y mod 4 =? 0) && (negb (y mod 100 =? 0) || (y mod 400 =? 0)).

Definition days_in_month (y m : Z) : Z :=
  if m =? 2 then (if leap_year y then 29 else 28)
  else if (m =? 4) || (m =? 6) || (m =? 9) || (m =? 11) then 30 else 31.

(** The calendar date of the next day. *)
Definition succ_date (c : Z * Z * Z) : Z * Z * Z :=
  let '(y, m, d) := c in
  if d <? days_in_month y m then (y, m, d + 1)
  else let '(y', m') := next_month (y, m) in (y', m', 1).

(** From [doe] on, [n] more days: each is the calendar successor of the
    day before; [cur] is the date of [doe]. *)
Fixpoint scan_succ (n : nat) (doe : Z) (cur : Z * Z * Z) : bool :=
  match n with
  | O => true
  | S n' =>
      let nxt := civil_adj (doe + 1) in
      ymd_eqb nxt (succ_date cur) && scan_succ n' (doe + 1) nxt
  end.

(** The text dd.mm.yyyy of a date, with zero-padded fields. *)
Definition ddmmyyyy (y m d : Z) : string :=
  (pad 2 d ++ "." ++ pad 2 m ++ "." ++ pad 4 y)%string.

(** The record's extraction date parses to [v]. *)
Definition date_is (v : Z) (r : record) : bool :=
  match parseCustomDate (extraction_date r) with Some x => Z.eqb x v | None => false end.

(* ================================================================== *)
(** * Proofs *)

Lemma strict_eq_iff (a b : prim) : strict_eq a b = true <-> a = b.
Proof.
  destruct a, b; simpl; split; intros H; try discriminate; try congruence;
    try (inversion H; subst); auto.
  - apply Bool.eqb_prop in H; congruence.
  - apply Bool.eqb_reflx.
  - apply Z.eqb_eq in H; congruence.
  - apply Z.eqb_refl.
  - apply String.eqb_eq in H; congruence.
  - apply String.eqb_refl.
Qed.

Lemma same_entry_iff (e n : record) : same_entry e n = true <-> key e = key n.
Proof.
  unfold same_entry, key. rewrite andb_true_iff, strict_eq_iff, String.eqb_eq.
  split; [intros [-> ->]; reflexivity | intros H; inversion H; auto].
Qed.

Lemma insert_sorted_perm (c : record -> record -> option Z) (x : record) (l : list record) :
  Permutation (insert_sorted c x l) (x :: l).
Proof.
  induction l as [|y ys IH]; simpl; [reflexivity|].
  destruct (SortCompare c x y <? 0); [reflexivity|].
  rewrite IH. apply perm_swap.
Qed.

Lemma fold_insert_perm (c : record -> record -> option Z) (l acc : list record) :
  Permutation (fold_left (fun acc x => insert_sorted c x acc) l acc) (acc ++ l).
Proof.
  revert acc; induction l as [|x l IH]; intros acc; simpl.
  - rewrite app_nil_r; reflexivity.
  - rewrite IH, insert_sorted_perm. simpl.
    apply Permutation_cons_app. reflexivity.
Qed.

Lemma js_sort_perm (c : record -> record -> option Z) (l : list record) :
  Permutation (js_sort c l) l.
Proof. unfold js_sort. apply fold_insert_perm. Qed.

Lemma merge_perm (existingData uniqueNewData : list record) :
  Permutation (merge existingData uniqueNewData) (existingData ++ uniqueNewData).
Proof. apply js_sort_perm. Qed.

Lemma filterDuplicates_app (e n1 n2 : list record) :
  filterDuplicates e (n1 ++ n2) = filterDuplicates e n1 ++ filterDuplicates e n2.
Proof. apply filter_app. Qed.

Lemma filterDuplicates_In (e n : list record) (x : record) :
  In x (filterDuplicates e n) <->
  In x n /\ forall y, In y e -> same_entry y x = false.
Proof.
  unfold filterDuplicates. rewrite filter_In, negb_true_iff.
  split; intros [Hin H]; split; auto.
  - intros y Hy. destruct (same_entry y x) eqn:E; auto.
    assert (existsb (fun existingEntry => same_entry existingEntry x) e = true)
      by (apply existsb_exists; eauto). congruence.
  - destruct (existsb _ e) eqn:E; auto.
    apply existsb_exists in E as [y [Hy Hs]]. rewrite H in Hs; auto.
Qed.

Lemma filterDuplicates_present (e : list record) (r : record)
  (Hr : exists y, In y e /\ same_entry y r = true) :
  filterDuplicates e [r] = [].
Proof.
  unfold filterDuplicates. simpl.
  destruct (existsb _ e) eqn:E; [reflexivity|].
  destruct Hr as [y [Hy Hs]].
  assert (existsb (fun existingEntry => same_entry existingEntry r) e = true)
    by (apply existsb_exists; eauto). congruence.
Qed.

(** ** 4.3 Dedup Merger *)

(** C1: a record r whose (sample_number, extraction_date) pair equals that
    of a record of D is dropped wherever it sits in the incoming batch
    [n1 ++ r :: n2]; the merged dataset is a rearrangement of D followed by
    the non-duplicate incoming records, so it has |D| records plus those. *)
Theorem merge_discards_present_record (D n1 n2 : list record) (r : record)
  (Hr : exists e, In e D /\ same_entry e r = true) :
  filterDuplicates D (n1 ++ r :: n2) = filterDuplicates D (n1 ++ n2) /\
  ~ In r (filterDuplicates D (n1 ++ r :: n2)) /\
  Permutation (merge D (filterDuplicates D (n1 ++ r :: n2))) (D ++ filterDuplicates D (n1 ++ n2)) /\
  List.length (merge D (filterDuplicates D (n1 ++ r :: n2))) =
    (List.length D + List.length (filterDuplicates D (n1 ++ n2)))%nat.
Proof.
  assert (Hfd : filterDuplicates D (n1 ++ r :: n2) = filterDuplicates D (n1 ++ n2)).
  { change (r :: n2) with ([r] ++ n2).
    rewrite !filterDuplicates_app, (filterDuplicates_present D r Hr). reflexivity. }
  split; [exact Hfd|]. split.
  - intros Hin. apply filterDuplicates_In in Hin as [_ H].
    destruct Hr as [e [He Hs]]. rewrite (H e He) in Hs. discriminate.
  - rewrite Hfd, merge_perm. split; [reflexivity|]. apply length_app.
Qed.

Lemma merge_discards_present_record_witness :
  (exists e, In e [rec0] /\ same_entry e rec0 = true) /\
  List.length (merge [rec0] (filterDuplicates [rec0] ([rec1] ++ rec0 :: []))) = 2%nat.
Proof.
  assert (H : exists e, In e [rec0] /\ same_entry e rec0 = true)
    by (exists rec0; split; [left; reflexivity | reflexivity]).
  split; [exact H|].
  destruct (merge_discards_present_record [rec0] [rec1] [] rec0 H) as [_ [_ [_ ->]]].
  reflexivity.
Defined.

Lemma count_occ_filter_kept (f : record -> bool) (l : list record) (r : record) :
  f r = true -> count_occ record_eq_dec (List.filter f l) r = count_occ record_eq_dec l r.
Proof.
  intros Hr. induction l as [|x l IH]; simpl; [reflexivity|].
  destruct (f x) eqn:Fx; simpl; destruct (record_eq_dec x r); subst; try congruence; auto.
Qed.

Lemma key_absent_not_In (e : list record) (r : record) :
  (forall y, In y e -> same_entry y r = false) -> ~ In r e.
Proof.
  intros H Hin. specialize (H r Hin).
  assert (same_entry r r = true) by (apply same_entry_iff; reflexivity). congruence.
Qed.

(** C9: filterDuplicates keeps exactly the incoming records whose key
    matches no existing record, in their order (it distributes over
    concatenation and is a filter); incoming records are not compared with
    one another, so a record whose key is absent from [e] keeps every one
    of its occurrences in the batch, and all of them reach the merged
    dataset. *)
Theorem filterDuplicates_keeps_unmatched (e n : list record) :
  (forall x, In x (filterDuplicates e n) <->
             In x n /\ forall y, In y e -> same_entry y x = false) /\
  (forall n1 n2, filterDuplicates e (n1 ++ n2) = filterDuplicates e n1 ++ filterDuplicates e n2) /\
  (forall r, (forall y, In y e -> same_entry y r = false) ->
     filterDuplicates e [r] = [r] /\
     count_occ record_eq_dec (merge e (filterDuplicates e n)) r = count_occ record_eq_dec n r).
Proof.
  split; [intros x; apply filterDuplicates_In|]. split; [intros; apply filterDuplicates_app|].
  intros r Hr.
  assert (Hkeep : negb (existsb (fun existingEntry => same_entry existingEntry r) e) = true).
  { apply negb_true_iff. destruct (existsb _ e) eqn:E; auto.
    apply existsb_exists in E as [y [Hy Hs]]. rewrite Hr in Hs; auto. }
  split.
  - unfold filterDuplicates. simpl. rewrite Hkeep. reflexivity.
  - rewrite (proj1 (Permutation_count_occ record_eq_dec _ _) (merge_perm e (filterDuplicates e n))).
    rewrite count_occ_app.
    rewrite (proj1 (count_occ_not_In record_eq_dec e r) (key_absent_not_In e r Hr)).
    unfold filterDuplicates. rewrite count_occ_filter_kept by exact Hkeep. reflexivity.
Qed.

Lemma filterDuplicates_all_present (D incoming : list record)
  (Hdup : forall r, In r incoming -> exists e, In e D /\ same_entry e r = true) :
  filterDuplicates D incoming = [].
Proof.
  induction incoming as [|r rs IH]; [reflexivity|].
  change (r :: rs) with ([r] ++ rs). rewrite filterDuplicates_app.
  rewrite filterDuplicates_present by (apply Hdup; left; reflexivity).
  apply IH. intros x Hx. apply Hdup. right. exact Hx.
Qed.

Lemma parseCustomDate_empty : parseCustomDate "" = None.
Proof. reflexivity. Qed.

Lemma getNextMonthInterval_some (tz : Z) (d : string) :
  parseCustomDate d <> None -> exists w, getNextMonthInterval tz d = Some w.
Proof.
  intros H. unfold getNextMonthInterval.
  destruct (parseCustomDate d); [eexists; reflexivity | congruence].
Qed.

Lemma findLatestExtractionDate_In (D : list record) (d : string) :
  findLatestExtractionDate D = Some d -> exists r, In r D /\ extraction_date r = d.
Proof.
  unfold findLatestExtractionDate. destruct (Nat.eqb _ 0); [discriminate|].
  destruct (js_sort by_date_desc D) as [|r rs] eqn:E; [discriminate|].
  intros H; inversion H; subst. exists r. split; auto.
  apply (Permutation_in r (js_sort_perm by_date_desc D)). rewrite E. left; reflexivity.
Qed.

Lemma findLatestExtractionDate_nonempty (D : list record) :
  D <> [] -> exists d, findLatestExtractionDate D = Some d.
Proof.
  intros HD. unfold findLatestExtractionDate.
  destruct D as [|x xs]; [congruence|]. simpl Nat.eqb. cbv iota.
  destruct (js_sort by_date_desc (x :: xs)) as [|r rs] eqn:E.
  - pose proof (Permutation_length (js_sort_perm by_date_desc (x :: xs))) as L.
    rewrite E in L. discriminate.
  - eexists; reflexivity.
Qed.

Lemma next_window_some (tz : Z) (todayStr : string) (D : list record) :
  dates_parse D -> exists w, next_window tz todayStr D = Some w.
Proof.
  intros HP. unfold next_window.
  destruct (Nat.eqb (List.length D) 0) eqn:L; [eexists; reflexivity|].
  destruct (findLatestExtractionDate_nonempty D) as [d Hd].
  { intros ->. discriminate. }
  rewrite Hd. destruct (findLatestExtractionDate_In D d Hd) as [r [Hr Hrd]].
  pose proof (HP r Hr) as Hp. rewrite Hrd in Hp.
  destruct (String.eqb d "") eqn:Es.
  - apply String.eqb_eq in Es. exfalso. apply Hp. rewrite ?Hrd, Es. reflexivity.
  - destruct (getNextMonthInterval_some tz d Hp) as [w Hw]. rewrite Hw.
    eexists; reflexivity.
Qed.

(** C6: when the deduplicated batch is empty (the API returned no record,
    or only records already in D), the run does not write: the store file
    is exactly what it was, so the dataset read back is D, the same
    sequence; and the run exits with 0 when D's dates parse. *)
Theorem no_new_records_store_untouched (tz now : Z) (callApi : api) (writeFile : fs_write)
    (D incoming : list record)
  (HD : D <> [])
  (Hfetch : forall s e, fetchData callApi s e = Some (JArr incoming))
  (Hdup : forall r, In r incoming -> exists e, In e D /\ same_entry e r = true) :
  store (fetchAllDataIncremental tz now callApi writeFile (FileText (Some (JArr D)))) = FileText (Some (JArr D)) /\
  wrote (fetchAllDataIncremental tz now callApi writeFile (FileText (Some (JArr D)))) = false /\
  readExistingData (store (fetchAllDataIncremental tz now callApi writeFile (FileText (Some (JArr D))))) = D /\
  (dates_parse D -> exit_code (fetchAllDataIncremental tz now callApi writeFile (FileText (Some (JArr D)))) = 0).
Proof.
  assert (Hu := filterDuplicates_all_present D incoming Hdup).
  unfold fetchAllDataIncremental. simpl readExistingData.
  destruct (next_window tz (formatDate now) D) as [w|] eqn:W.
  - rewrite Hfetch, Hu. simpl. auto.
  - simpl. repeat split; auto.
    intros HP. destruct (next_window_some tz (formatDate now) D HP) as [w Hw]. congruence.
Qed.

Lemma no_new_records_store_untouched_witness :
  store (fetchAllDataIncremental 0 noon_2023_04_10 (api_returning [rec0]) write_ok (FileText (Some (JArr [rec0]))))
    = FileText (Some (JArr [rec0])).
Proof.
  apply (no_new_records_store_untouched 0 noon_2023_04_10 (api_returning [rec0]) write_ok [rec0] [rec0]).
  - discriminate.
  - intros s e. reflexivity.
  - intros r [<-|[]]. exists rec0. split; [left; reflexivity | reflexivity].
Defined.

(** ** 4.4 Persistence Store *)

(** C7: a store file that is absent, unreadable, not valid JSON, or valid
    JSON other than an array loads as the empty dataset ([readExistingData]
    is total: it cannot raise), and the run then takes the bootstrap path:
    its window, and its only request, is the first month 2022-02. *)
Theorem load_fallback_bootstrap (tz now : Z) (callApi : api) (writeFile : fs_write) (file : store_file)
  (Hbad : file = FileAbsent \/ file = FileUnreadable \/ file = FileText None \/
          exists v, file = FileText (Some v) /\ forall l, v <> JArr l) :
  readExistingData file = [] /\
  next_window tz (formatDate now) (readExistingData file) = Some bootstrap_window /\
  requests (fetchAllDataIncremental tz now callApi writeFile file) = [bootstrap_window].
Proof.
  assert (H0 : readExistingData file = []).
  { destruct Hbad as [->|[->|[->|[v [-> Hv]]]]]; try reflexivity.
    simpl. destruct v; try reflexivity. exfalso. apply (Hv l). reflexivity. }
  assert (Hw : next_window tz (formatDate now) (readExistingData file) = Some bootstrap_window)
    by (rewrite H0; reflexivity).
  split; [exact H0|]. split; [exact Hw|].
  unfold fetchAllDataIncremental. rewrite Hw.
  destruct (fetchData callApi _ _) as [[]|]; try reflexivity.
  destruct (Nat.eqb _ 0); [reflexivity|]. destruct (writeFile _); reflexivity.
Qed.

Lemma load_fallback_bootstrap_witness :
  requests (fetchAllDataIncremental 0 noon_2023_04_10 (api_returning []) write_ok (FileText (Some (JStr "x"))))
    = [bootstrap_window].
Proof.
  apply (load_fallback_bootstrap 0 noon_2023_04_10 (api_returning []) write_ok (FileText (Some (JStr "x")))).
  right; right; right. exists (JStr "x"). split; [reflexivity | discriminate].
Defined.

(** ** 4.2 Remote Fetcher and exit status *)

(** C8, as stated, fails: [fetchData] does not raise exactly when the
    transport fails, the status is not ok, or the top-level [body]
    property is missing. A response [{"body": null}] (status 200) carries
    the envelope, and [fetchData] still raises on it ([!json.body]). *)
Lemma fetch_raise_condition_counterexample :
  ~ (forall (callApi : api) (s e : string),
       fetchData callApi s e = None <->
       (callApi s e = TransportError \/
        (exists st b, callApi s e = Response false st b) \/
        ~ has_envelope (callApi s e))).
Proof.
  intros H.
  destruct (H (fun _ _ => Response true 200 (Some (JObj [("body"%string, JNull)]))) ""%string ""%string)
    as [H1 _].
  destruct (H1 eq_refl) as [E|[[st [b E]]|E]]; try discriminate.
  apply E. simpl. discriminate.
Qed.

(** C8, amended: [fetchData] raises exactly when the transport fails, the
    status is not ok, or the body is not JSON with a truthy top-level
    [body] property (missing, [null], [false], [0] and [""] all raise).
    The run exits with 0 exactly when it completes: the fetch returns an
    array and either nothing in it is new (no write) or the write-back of
    the merged array succeeds. It exits with 1 when the window cannot be
    computed, when the fetch raises (the store is left as it was), when
    the returned body is not an array, and when [fs.writeFile] rejects. *)
Theorem fetch_failure_exit_codes (tz now : Z) (callApi : api) (writeFile : fs_write)
    (file : store_file) :
  (forall s e, fetchData callApi s e = None <->
     callApi s e = TransportError \/
     (exists st b, callApi s e = Response false st b) \/
     (exists st b, callApi s e = Response true st b /\
        ~ exists fields v, b = Some (JObj fields) /\ js_get fields "body" = Some v /\ truthy v = true)) /\
  (next_window tz (formatDate now) (readExistingData file) = None ->
     exit_code (fetchAllDataIncremental tz now callApi writeFile file) = 1 /\
     requests (fetchAllDataIncremental tz now callApi writeFile file) = [] /\
     store (fetchAllDataIncremental tz now callApi writeFile file) = file) /\
  (forall w, next_window tz (formatDate now) (readExistingData file) = Some w ->
     (fetchData callApi (startDate w) (endDate w) = None ->
        exit_code (fetchAllDataIncremental tz now callApi writeFile file) = 1 /\
        store (fetchAllDataIncremental tz now callApi writeFile file) = file /\
        wrote (fetchAllDataIncremental tz now callApi writeFile file) = false) /\
     (forall l, fetchData callApi (startDate w) (endDate w) = Some (JArr l) ->
        filterDuplicates (readExistingData file) l = [] ->
        exit_code (fetchAllDataIncremental tz now callApi writeFile file) = 0 /\
        store (fetchAllDataIncremental tz now callApi writeFile file) = file) /\
     (forall l, fetchData callApi (startDate w) (endDate w) = Some (JArr l) ->
        filterDuplicates (readExistingData file) l <> [] ->
        writeFile (merge (readExistingData file) (filterDuplicates (readExistingData file) l)) = WriteDone ->
        exit_code (fetchAllDataIncremental tz now callApi writeFile file) = 0 /\
        wrote (fetchAllDataIncremental tz now callApi writeFile file) = true) /\
     (forall l f, fetchData callApi (startDate w) (endDate w) = Some (JArr l) ->
        filterDuplicates (readExistingData file) l <> [] ->
        writeFile (merge (readExistingData file) (filterDuplicates (readExistingData file) l)) = WriteFailed f ->
        exit_code (fetchAllDataIncremental tz now callApi writeFile file) = 1 /\
        wrote (fetchAllDataIncremental tz now callApi writeFile file) = false /\
        store (fetchAllDataIncremental tz now callApi writeFile file) = f) /\
     (forall v, fetchData callApi (startDate w) (endDate w) = Some v -> (forall l, v <> JArr l) ->
        exit_code (fetchAllDataIncremental tz now callApi writeFile file) = 1 /\
        store (fetchAllDataIncremental tz now callApi writeFile file) = file)).
Proof.
  split; [|split].
  - intros s e. unfold fetchData. destruct (callApi s e) as [|ok st b].
    + split; auto.
    + destruct ok; simpl.
      * split.
        -- intros H. right; right. exists st, b. split; [reflexivity|].
           intros [fields [v [-> [Hg Ht]]]]. rewrite Hg, Ht in H. discriminate.
        -- intros [H|[[st' [b' H]]|[st' [b' [H Hn]]]]]; try discriminate.
           inversion H; subst.
           destruct b' as [[]|]; try reflexivity.
           destruct (js_get fields "body") as [v|] eqn:G; [|reflexivity].
           destruct (truthy v) eqn:T; [|reflexivity].
           exfalso. apply Hn. exists fields, v. auto.
      * split; [intros _; right; left; eauto | reflexivity].
  - intros Hw. unfold fetchAllDataIncremental. rewrite Hw. auto.
  - intros w Hw. unfold fetchAllDataIncremental. rewrite Hw.
    split; [|split; [|split; [|split]]].
    + intros H. rewrite H. auto.
    + intros l H E. rewrite H, E. auto.
    + intros l H E Wr. rewrite H.
      destruct (filterDuplicates (readExistingData file) l) as [|u us]; [congruence|].
      simpl Nat.eqb. cbv iota. rewrite Wr. auto.
    + intros l f H E Wr. rewrite H.
      destruct (filterDuplicates (readExistingData file) l) as [|u us]; [congruence|].
      simpl Nat.eqb. cbv iota. rewrite Wr. auto.
    + intros v H Hv. rewrite H.
      destruct v; try (split; reflexivity). exfalso. apply (Hv l). reflexivity.
Qed.

(** From an absent store (no data/ directory), the first-month fetch
    returns a record and the write rejects: the run exits with 1. *)
Lemma fetch_failure_exit_codes_witness :
  exit_code (fetchAllDataIncremental 0 noon_2023_04_10 (api_returning [rec1])
               (fun _ => WriteFailed FileAbsent) FileAbsent) = 1.
Proof.
  destruct (fetch_failure_exit_codes 0 noon_2023_04_10 (api_returning [rec1])
              (fun _ => WriteFailed FileAbsent) FileAbsent) as [_ [_ H]].
  destruct (H bootstrap_window eq_refl) as [_ [_ [_ [H4 _]]]].
  apply (H4 [rec1] FileAbsent); [reflexivity | discriminate | reflexivity].
Defined.

(** ** Frame: the existing array is never written *)

Module HeapFacts.

Definition preserves (h h' : Heap.heap) : Prop :=
  (List.length h <= List.length h')%nat /\
  forall a, (a < List.length h)%nat -> nth_error h' a = nth_error h a.

Lemma preserves_refl (h : Heap.heap) : preserves h h.
Proof. split; auto. Qed.

Lemma preserves_trans (h1 h2 h3 : Heap.heap) : preserves h1 h2 -> preserves h2 h3 -> preserves h1 h3.
Proof.
  intros [L1 P1] [L2 P2]. split; [lia|].
  intros a Ha. rewrite P2 by lia. apply P1; lia.
Qed.

Lemma length_update (h : Heap.heap) (a : Heap.loc) (v : list record) :
  List.length (Heap.update h a v) = List.length h.
Proof.
  revert a; induction h as [|x h IH]; intros [|a]; simpl; auto.
Qed.

Lemma nth_error_update_ne (h : Heap.heap) (a b : Heap.loc) (v : list record) :
  a <> b -> nth_error (Heap.update h b v) a = nth_error h a.
Proof.
  revert a b; induction h as [|x h IH]; intros a b Hab; [reflexivity|].
  destruct a, b; simpl; try congruence; auto.
Qed.

Lemma nth_error_update_eq (h : Heap.heap) (a : Heap.loc) (v : list record) :
  (a < List.length h)%nat -> nth_error (Heap.update h a v) a = Some v.
Proof.
  revert a; induction h as [|x h IH]; intros a Ha; simpl in Ha; [lia|].
  destruct a; simpl; auto. apply IH. lia.
Qed.

Lemma alloc_preserves (h : Heap.heap) (v : list record) :
  fst (Heap.alloc h v) = List.length h /\ preserves h (snd (Heap.alloc h v)) /\
  nth_error (snd (Heap.alloc h v)) (List.length h) = Some v.
Proof.
  simpl. split; [reflexivity|]. split.
  - split; [rewrite length_app; simpl; lia|].
    intros a Ha. apply nth_error_app1. exact Ha.
  - rewrite nth_error_app2 by lia. rewrite Nat.sub_diag. reflexivity.
Qed.

Lemma sort_in_place_spec (c : record -> record -> option Z) (h h' : Heap.heap) (a : Heap.loc) :
  Heap.sort_in_place c h a = Some h' ->
  exists v, nth_error h a = Some v /\ h' = Heap.update h a (js_sort c v).
Proof.
  unfold Heap.sort_in_place. destruct (nth_error h a) as [v|]; [|discriminate].
  intros H; inversion H; eauto.
Qed.

(** Writing a cell allocated after [h] preserves [h]. *)
Lemma update_fresh_preserves (h h1 : Heap.heap) (a : Heap.loc) (v : list record) :
  preserves h h1 -> (List.length h <= a)%nat -> preserves h (Heap.update h1 a v).
Proof.
  intros [L P] Ha. split; [rewrite length_update; exact L|].
  intros b Hb. rewrite nth_error_update_ne by lia. apply P; exact Hb.
Qed.

Lemma findLatest_preserves (h h' : Heap.heap) (data : Heap.loc) (o : option string) :
  Heap.findLatestExtractionDate h data = Some (o, h') -> preserves h h'.
Proof.
  unfold Heap.findLatestExtractionDate.
  destruct (nth_error h data) as [v|]; [|discriminate].
  destruct (Nat.eqb (List.length v) 0).
  - intros H; inversion H; subst. apply preserves_refl.
  - destruct (alloc_preserves h v) as [Hc [Hp _]].
    destruct (Heap.alloc h v) as [copy h1] eqn:A. simpl in Hc, Hp. subst copy.
    destruct (Heap.sort_in_place by_date_desc h1 (List.length h)) as [h2|] eqn:S; [|discriminate].
    destruct (sort_in_place_spec _ _ _ _ S) as [v' [_ ->]].
    destruct (nth_error _ (List.length h)) as [[|r rs]|]; try discriminate.
    intros H; inversion H; subst. apply update_fresh_preserves; auto.
Qed.

Lemma filterDuplicates_preserves (h h' : Heap.heap) (e n u : Heap.loc) :
  Heap.filterDuplicates h e n = Some (u, h') ->
  exists ve vn, nth_error h e = Some ve /\ nth_error h n = Some vn /\
    u = List.length h /\ preserves h h' /\
    nth_error h' u = Some (filterDuplicates ve vn).
Proof.
  unfold Heap.filterDuplicates.
  destruct (nth_error h e) as [ve|], (nth_error h n) as [vn|]; try discriminate.
  intros H. inversion H; subst.
  destruct (alloc_preserves h (filterDuplicates ve vn)) as [_ [Hp Hn]].
  exists ve, vn. auto.
Qed.

Lemma concat_preserves (h h' : Heap.heap) (a b c : Heap.loc) :
  Heap.concat h a b = Some (c, h') ->
  exists va vb, nth_error h a = Some va /\ nth_error h b = Some vb /\
    c = List.length h /\ preserves h h' /\ nth_error h' c = Some (va ++ vb).
Proof.
  unfold Heap.concat.
  destruct (nth_error h a) as [va|], (nth_error h b) as [vb|]; try discriminate.
  intros H. inversion H; subst.
  destruct (alloc_preserves h (va ++ vb)) as [_ [Hp Hn]].
  exists va, vb. auto.
Qed.

End HeapFacts.

Lemma nth_error_Some_lt {A : Type} (l : list A) (n : nat) (x : A) :
  nth_error l n = Some x -> (n < List.length l)%nat.
Proof. intros H. apply nth_error_Some. congruence. Qed.

(** C10: the in-memory steps of a run — [findLatestExtractionDate] on a
    copy, [filterDuplicates], [concat] and the in-place sort of the
    concatenation — leave the existing array unchanged in the heap, and
    every array that existed before the run as well; the array that is
    written is a fresh one holding the merge of the existing data with the
    unique new records. *)
Theorem in_memory_steps_frame (h h' : Heap.heap) (existingData : Heap.loc)
  (fetched : list record) (c : option Heap.loc)
  (H : Heap.in_memory_steps h existingData fetched = Some (c, h')) :
  nth_error h' existingData = nth_error h existingData /\
  (forall a, (a < List.length h)%nat -> nth_error h' a = nth_error h a) /\
  (forall combined, c = Some combined ->
     (List.length h <= combined)%nat /\
     exists e, nth_error h existingData = Some e /\
       nth_error h' combined = Some (merge e (filterDuplicates e fetched))).
Proof.
  unfold Heap.in_memory_steps in H.
  destruct (nth_error h existingData) as [e|] eqn:He; [|discriminate].
  assert (Hex : (existingData < List.length h)%nat) by (eapply nth_error_Some_lt; eauto).
  set (h1o := if Nat.eqb (List.length e) 0 then Some h else _) in H.
  assert (Hh1 : forall h1, h1o = Some h1 -> HeapFacts.preserves h h1).
  { intros h1. subst h1o. destruct (Nat.eqb _ 0).
    - intros E; inversion E; apply HeapFacts.preserves_refl.
    - destruct (Heap.findLatestExtractionDate h existingData) as [[[s|] h2]|] eqn:F;
        try discriminate.
      intros E; inversion E; subst. eapply HeapFacts.findLatest_preserves; eauto. }
  destruct h1o as [h1|]; [|discriminate].
  specialize (Hh1 h1 eq_refl).
  destruct (HeapFacts.alloc_preserves h1 fetched) as [Hnw [Hp1' Hfetched]].
  destruct (Heap.alloc h1 fetched) as [nw h1'] eqn:A. simpl in Hnw, Hp1', Hfetched. subst nw.
  assert (Hh1' := HeapFacts.preserves_trans _ _ _ Hh1 Hp1').
  destruct (Heap.filterDuplicates h1' existingData (List.length h1)) as [[u h2]|] eqn:Fd;
    [|discriminate].
  destruct (HeapFacts.filterDuplicates_preserves _ _ _ _ _ Fd)
    as [ve [vn [Hve [Hvn [Hu [Hp2 Hnu]]]]]].
  rewrite Hfetched in Hvn. inversion Hvn; subst vn.
  assert (Hh2 := HeapFacts.preserves_trans _ _ _ Hh1' Hp2).
  rewrite (proj2 Hh1' existingData Hex), He in Hve. inversion Hve; subst ve.
  rewrite Hnu in H.
  destruct (filterDuplicates e fetched) as [|x xs] eqn:FD.
  - inversion H; subst. destruct Hh2 as [_ P2].
    split; [rewrite P2 by exact Hex; exact He|]. split; [exact P2|]. discriminate.
  - destruct (Heap.concat h2 existingData u) as [[cb h3]|] eqn:Cc; [|discriminate].
    destruct (HeapFacts.concat_preserves _ _ _ _ _ Cc)
      as [va [vb [Hva [Hvb [Hcb [Hp3 Hncb]]]]]].
    destruct (Heap.sort_in_place by_date_asc h3 cb) as [h4|] eqn:So; [|discriminate].
    inversion H; subst c h'.
    destruct (HeapFacts.sort_in_place_spec _ _ _ _ So) as [vc [Hvc ->]].
    assert (Hh3 := HeapFacts.preserves_trans _ _ _ Hh2 Hp3).
    assert (Hfresh : (List.length h <= cb)%nat) by (destruct Hh2; lia).
    assert (Hh4 := HeapFacts.update_fresh_preserves h h3 cb (js_sort by_date_asc vc) Hh3 Hfresh).
    destruct Hh4 as [_ P4].
    split; [rewrite P4 by exact Hex; exact He|]. split; [exact P4|].
    intros combined [= <-]. split; [exact Hfresh|]. exists e. split; [reflexivity|].
    rewrite FD. unfold merge.
    rewrite (proj2 Hh2 existingData Hex), He in Hva.
    assert (vc = e ++ x :: xs) by congruence. subst vc.
    apply HeapFacts.nth_error_update_eq. eapply nth_error_Some_lt; eauto.
Qed.

Lemma in_memory_steps_frame_witness :
  nth_error
    [[rec0]; [rec0]; [rec1]; [rec1]; [rec0; rec1]] 0%nat = nth_error [[rec0]] 0%nat.
Proof.
  exact (proj1 (in_memory_steps_frame [[rec0]] [[rec0]; [rec0]; [rec1]; [rec1]; [rec0; rec1]]
                  0%nat [rec1] (Some 4%nat) eq_refl)).
Defined.

(** ** The dataset invariant after a write-back *)

Lemma insert_sorted_HdRel (a x : record) (l : list record) :
  HdRel date_le a l -> date_le a x -> HdRel date_le a (insert_sorted by_date_asc x l).
Proof.
  intros Hl Hax. destruct l as [|y ys]; simpl.
  - constructor. exact Hax.
  - destruct (SortCompare by_date_asc x y <? 0); constructor; auto.
    inversion Hl; auto.
Qed.

Lemma insert_sorted_Sorted (x : record) (l : list record) :
  dates_parse (x :: l) -> Sorted date_le l -> Sorted date_le (insert_sorted by_date_asc x l).
Proof.
  induction l as [|y ys IH]; intros HP HS; simpl.
  - repeat constructor.
  - assert (Px : parseCustomDate (extraction_date x) <> None) by (apply HP; left; auto).
    assert (Py : parseCustomDate (extraction_date y) <> None) by (apply HP; right; left; auto).
    destruct (parseCustomDate (extraction_date x)) as [px|] eqn:Ex; [|congruence].
    destruct (parseCustomDate (extraction_date y)) as [py|] eqn:Ey; [|congruence].
    unfold SortCompare, by_date_asc. rewrite Ex, Ey.
    destruct (px - py <? 0) eqn:C.
    + apply Z.ltb_lt in C. constructor; [exact HS|].
      constructor. exists px, py. split; [auto|]. split; [auto|]. lia.
    + apply Z.ltb_ge in C. inversion HS; subst. constructor.
      * apply IH; auto. intros r [<-|Hr]; apply HP; [left | right; right]; auto.
      * apply insert_sorted_HdRel; auto. exists py, px. split; [auto|]. split; [auto|]. lia.
Qed.

Lemma fold_insert_Sorted (l acc : list record) :
  dates_parse (acc ++ l) -> Sorted date_le acc ->
  Sorted date_le (fold_left (fun acc x => insert_sorted by_date_asc x acc) l acc).
Proof.
  revert acc; induction l as [|x l IH]; intros acc HP HS; simpl; [exact HS|].
  apply IH.
  - intros r Hr. apply HP.
    apply (Permutation_in r (Permutation_app_tail l (insert_sorted_perm by_date_asc x acc))) in Hr.
    apply in_app_or in Hr as [[<-|Hr]|Hr]; apply in_or_app; [right; left | left | right; right]; auto.
  - apply insert_sorted_Sorted; auto.
    intros r [<-|Hr]; apply HP, in_or_app; [right; left | left]; auto.
Qed.

Lemma merge_sorted (D u : list record) :
  dates_parse (D ++ u) -> dataset_sorted (merge D u).
Proof.
  intros HP. unfold dataset_sorted, merge, js_sort. apply fold_insert_Sorted; [exact HP | constructor].
Qed.

Lemma NoDup_map_filter (g : record -> prim * string) (f : record -> bool) (l : list record) :
  NoDup (map g l) -> NoDup (map g (List.filter f l)).
Proof.
  induction l as [|x l IH]; simpl; intros H; [constructor|].
  inversion H; subst. destruct (f x); simpl; auto.
  constructor; auto. intros Hin. apply in_map_iff in Hin as [y [Hy Hin]].
  apply filter_In in Hin as [Hin _]. apply H2. rewrite <- Hy. apply in_map. exact Hin.
Qed.

Lemma merge_no_dup_keys (D incoming : list record) :
  no_dup_keys D -> no_dup_keys incoming -> no_dup_keys (merge D (filterDuplicates D incoming)).
Proof.
  unfold no_dup_keys. intros HD HI.
  apply (Permutation_NoDup (Permutation_map key (Permutation_sym (merge_perm D _)))).
  rewrite map_app. apply NoDup_app; [exact HD | apply NoDup_map_filter; exact HI |].
  intros k Hk Hk'.
  apply in_map_iff in Hk as [e [He HeD]]. apply in_map_iff in Hk' as [y [Hy Hyu]].
  apply filterDuplicates_In in Hyu as [_ Hno].
  specialize (Hno e HeD).
  assert (same_entry e y = true) by (apply same_entry_iff; congruence). congruence.
Qed.

(** C2, as stated, fails: the batch is compared only with the stored
    records, never with itself. From an absent store, an API answer
    holding the same record twice is written with both copies. *)
Lemma written_store_invariant_counterexample :
  ~ (forall (tz now : Z) (callApi : api) (writeFile : fs_write) (file : store_file),
       wrote (fetchAllDataIncremental tz now callApi writeFile file) = true ->
       dataset_sorted (readExistingData (store (fetchAllDataIncremental tz now callApi writeFile file))) /\
       no_dup_keys (readExistingData (store (fetchAllDataIncremental tz now callApi writeFile file)))).
Proof.
  intros H.
  destruct (H 0 noon_2023_04_10 (api_returning [sample 7 "01.02.2022"; sample 7 "01.02.2022"]) write_ok
              FileAbsent eq_refl) as [_ Hnd].
  vm_compute in Hnd. inversion Hnd as [|k l Hnot _]. apply Hnot. left. reflexivity.
Qed.

(** C2, amended: a written store is the merge of the loaded dataset
    with the fetched batch's non-duplicate records; it is sorted
    ascending by parsed extraction date whenever every extraction date of
    the loaded dataset and of the batch parses, and it has no two records
    sharing a (sample_number, extraction_date) pair whenever the loaded
    dataset has none and the batch has none within itself. *)
Theorem written_store_sorted_and_unique (tz now : Z) (callApi : api) (writeFile : fs_write)
    (file : store_file)
  (Hw : wrote (fetchAllDataIncremental tz now callApi writeFile file) = true) :
  exists w incoming,
    requests (fetchAllDataIncremental tz now callApi writeFile file) = [w] /\
    fetchData callApi (startDate w) (endDate w) = Some (JArr incoming) /\
    readExistingData (store (fetchAllDataIncremental tz now callApi writeFile file)) =
      merge (readExistingData file) (filterDuplicates (readExistingData file) incoming) /\
    (dates_parse (readExistingData file ++ incoming) ->
       dataset_sorted (readExistingData (store (fetchAllDataIncremental tz now callApi writeFile file)))) /\
    (no_dup_keys (readExistingData file) -> no_dup_keys incoming ->
       no_dup_keys (readExistingData (store (fetchAllDataIncremental tz now callApi writeFile file)))).
Proof.
  revert Hw. unfold fetchAllDataIncremental.
  destruct (next_window tz (formatDate now) (readExistingData file)) as [w|]; [|discriminate].
  destruct (fetchData callApi (startDate w) (endDate w)) as [[]|] eqn:F; try discriminate.
  destruct (Nat.eqb (List.length (filterDuplicates (readExistingData file) l)) 0);
    [discriminate|].
  destruct (writeFile _); [|discriminate].
  intros _. simpl. exists w, l. split; [reflexivity|]. split; [exact F|].
  split; [reflexivity|]. split.
  - intros HP. apply merge_sorted. intros r Hr. apply HP.
    apply in_app_or in Hr as [Hr|Hr]; apply in_or_app; [left; exact Hr|].
    right. apply filterDuplicates_In in Hr as [Hr _]. exact Hr.
  - apply merge_no_dup_keys.
Qed.

Lemma written_store_sorted_and_unique_witness :
  wrote (fetchAllDataIncremental 0 noon_2023_04_10 (api_returning [rec1]) write_ok (FileText (Some (JArr [rec0]))))
    = true /\
  readExistingData (store (fetchAllDataIncremental 0 noon_2023_04_10 (api_returning [rec1]) write_ok
                             (FileText (Some (JArr [rec0]))))) = [rec0; rec1].
Proof.
  assert (Hw : wrote (fetchAllDataIncremental 0 noon_2023_04_10 (api_returning [rec1]) write_ok
                        (FileText (Some (JArr [rec0])))) = true) by (vm_compute; reflexivity).
  split; [exact Hw|].
  destruct (written_store_sorted_and_unique 0 noon_2023_04_10 (api_returning [rec1]) write_ok
              (FileText (Some (JArr [rec0]))) Hw) as [w [inc [_ [F [E _]]]]].
  rewrite E. vm_compute in F. inversion F; subst inc. vm_compute. reflexivity.
Defined.

(** ** Calendar facts *)

Lemma all_pow_spec (k : nat) (f : Z -> bool) (base : Z) :
  all_pow k f base = true -> forall z, base <= z < base + 2 ^ Z.of_nat k -> f z = true.
Proof.
  revert base; induction k as [|k IH]; intros base H z Hz; simpl in H.
  - simpl in Hz. assert (z = base) by lia. subst. exact H.
  - apply andb_true_iff in H as [H1 H2].
    rewrite Nat2Z.inj_succ, Z.pow_succ_r in Hz by lia.
    destruct (Z.lt_ge_cases z (base + 2 ^ Z.of_nat k)).
    + apply (IH base H1). lia.
    + apply (IH _ H2). lia.
Qed.

Lemma scan_era_spec (n : nat) (doe : Z) :
  scan_era n doe (civil_of_doe doe) = true ->
  forall k : nat, (k <= n)%nat ->
    range_ok (civil_of_doe (doe + Z.of_nat k)) = true /\
    ((k < n)%nat -> lex_ltb (civil_adj (doe + Z.of_nat k)) (civil_adj (doe + Z.of_nat k + 1)) = true).
Proof.
  revert doe; induction n as [|n IH]; intros doe H k Hk; simpl in H.
  - assert (k = 0%nat) by lia. subst. rewrite Z.add_0_r. rewrite andb_true_r in H.
    split; [exact H | intros; lia].
  - apply andb_true_iff in H as [Hr H]. apply andb_true_iff in H as [Hl H].
    destruct k as [|k].
    + rewrite Z.add_0_r. split; [exact Hr|]. intros _. exact Hl.
    + destruct (IH (doe + 1) H k ltac:(lia)) as [H1 H2].
      replace (doe + Z.of_nat (S k)) with (doe + 1 + Z.of_nat k) by lia.
      split; [exact H1|]. intros Hlt. apply H2. lia.
Qed.

Lemma era_facts : scan_era (Z.to_nat 146096) 0 (civil_of_doe 0) = true.
Proof. vm_compute. reflexivity. Qed.

Lemma civil_of_doe_range (doe : Z) :
  0 <= doe <= 146096 -> range_ok (civil_of_doe doe) = true.
Proof.
  intros H. destruct (scan_era_spec _ _ era_facts (Z.to_nat doe)) as [H1 _];
    [apply Z2Nat.inj_le; lia|].
  rewrite Z2Nat.id in H1 by lia. exact H1.
Qed.

Lemma civil_adj_succ (doe : Z) :
  0 <= doe < 146096 -> lex_ltb (civil_adj doe) (civil_adj (doe + 1)) = true.
Proof.
  intros H. destruct (scan_era_spec _ _ era_facts (Z.to_nat doe)) as [_ H2];
    [apply Z2Nat.inj_le; lia|].
  rewrite Z2Nat.id in H2 by lia. apply H2. apply Z2Nat.inj_lt; lia.
Qed.

Lemma first_ok_all : forall z, 0 <= z < 2 ^ 13 -> first_ok z = true.
Proof.
  intros z H. apply (all_pow_spec 13 first_ok 0); [vm_compute; reflexivity | simpl; lia].
Qed.

Ltac lex_unfold :=
  unfold lex_ltb in *;
  repeat rewrite ?orb_true_iff, ?andb_true_iff, ?Z.ltb_lt, ?Z.eqb_eq in *.

Lemma lex_ltb_trans (a b c : Z * Z * Z) :
  lex_ltb a b = true -> lex_ltb b c = true -> lex_ltb a c = true.
Proof.
  destruct a as [[y1 m1] d1], b as [[y2 m2] d2], c as [[y3 m3] d3].
  intros H1 H2. lex_unfold. lia.
Qed.

Lemma lex_ltb_irrefl (a : Z * Z * Z) : lex_ltb a a = false.
Proof.
  destruct a as [[y m] d]. destruct (lex_ltb (y, m, d) (y, m, d)) eqn:E; [|reflexivity].
  lex_unfold. lia.
Qed.

Lemma lex_ltb_shift (c1 c2 : Z) (a b : Z * Z * Z) :
  c1 = c2 -> lex_ltb (shift_year c1 a) (shift_year c2 b) = lex_ltb a b.
Proof.
  intros ->. destruct a as [[y1 m1] d1], b as [[y2 m2] d2]. simpl. unfold lex_ltb.
  destruct (Z.ltb_spec y1 y2), (Z.ltb_spec (y1 + c2) (y2 + c2)); try lia; simpl; auto;
  destruct (Z.eqb_spec y1 y2), (Z.eqb_spec (y1 + c2) (y2 + c2)); try lia; reflexivity.
Qed.

Lemma civil_from_days_decomp (z : Z) :
  civil_from_days z =
  shift_year ((z + 719468) / 146097 * 400) (civil_adj ((z + 719468) mod 146097)).
Proof.
  unfold civil_from_days, civil_adj, adj_of.
  replace (z + 719468 - (z + 719468) / 146097 * 146097) with ((z + 719468) mod 146097)
    by (rewrite Z.mod_eq by lia; ring).
  destruct (civil_of_doe ((z + 719468) mod 146097)) as [[yoe m] d]. simpl. f_equal. f_equal. ring.
Qed.

Lemma civil_from_days_range (z : Z) :
  let '(_, m, d) := civil_from_days z in 1 <= m <= 12 /\ 1 <= d <= 31.
Proof.
  rewrite civil_from_days_decomp.
  pose proof (civil_of_doe_range ((z + 719468) mod 146097)
                ltac:(pose proof (Z.mod_pos_bound (z + 719468) 146097); lia)) as H.
  unfold civil_adj.
  destruct (civil_of_doe _) as [[yoe m] d]. simpl.
  unfold range_ok in H. rewrite !andb_true_iff, !Z.leb_le in H. lia.
Qed.

Lemma ymd_eqb_true (a b : Z * Z * Z) : ymd_eqb a b = true -> a = b.
Proof.
  destruct a as [[y1 m1] d1], b as [[y2 m2] d2]. unfold ymd_eqb.
  rewrite !andb_true_iff, !Z.eqb_eq. intros [[-> ->] ->]. reflexivity.
Qed.

Lemma civil_from_days_first (y m : Z) :
  1 <= m <= 12 -> civil_from_days (days_from_civil y m 1) = (y, m, 1).
Proof.
  intros Hm. unfold days_from_civil.
  set (y' := if m <=? 2 then y - 1 else y).
  set (era := y' / 400).
  set (yoe := y' - era * 400).
  assert (Hyoe : 0 <= yoe < 400).
  { subst yoe era. rewrite <- (Z.mul_comm 400), <- Z.mod_eq by lia. apply Z.mod_pos_bound. lia. }
  pose proof (first_ok_all (yoe * 12 + (m - 1)) ltac:(simpl; lia)) as Hf.
  unfold first_ok in Hf.
  replace ((yoe * 12 + (m - 1)) / 12) with yoe in Hf
    by (apply (Z.div_unique_pos _ _ _ (m - 1)); lia).
  replace ((yoe * 12 + (m - 1)) mod 12) with (m - 1) in Hf
    by (apply (Z.mod_unique_pos _ _ yoe); lia).
  replace (m - 1 + 1) with m in Hf by lia.
  destruct (4799 <? yoe * 12 + (m - 1)) eqn:B; [apply Z.ltb_lt in B; lia|].
  rewrite Bool.orb_false_l in Hf.
  set (doe := doe_of yoe ((m + 9) mod 12) 1) in *.
  apply andb_true_iff in Hf as [Hf Hc]. apply andb_true_iff in Hf as [H0 H1].
  apply Z.leb_le in H0. apply Z.ltb_lt in H1. apply ymd_eqb_true in Hc.
  rewrite civil_from_days_decomp.
  replace (era * 146097 + doe - 719468 + 719468) with (146097 * era + doe) by ring.
  replace ((146097 * era + doe) / 146097) with era
    by (apply (Z.div_unique_pos _ _ _ doe); lia).
  replace ((146097 * era + doe) mod 146097) with doe
    by (apply (Z.mod_unique_pos _ _ era); lia).
  unfold civil_adj.
  rewrite Hc. simpl. subst yoe y'. destruct (m <=? 2); f_equal; f_equal; ring.
Qed.

Lemma civil_from_days_succ (z : Z) :
  lex_ltb (civil_from_days z) (civil_from_days (z + 1)) = true.
Proof.
  rewrite !civil_from_days_decomp.
  set (q := (z + 719468) / 146097).
  set (r := (z + 719468) mod 146097).
  assert (Hz : z + 719468 = 146097 * q + r) by (apply Z.div_mod; lia).
  assert (Hr : 0 <= r < 146097) by (apply Z.mod_pos_bound; lia).
  replace (z + 1 + 719468) with (z + 719468 + 1) by ring.
  destruct (Z.eq_dec r 146096) as [E|E].
  - replace ((z + 719468 + 1) / 146097) with (q + 1)
      by (apply (Z.div_unique_pos _ _ _ 0); lia).
    replace ((z + 719468 + 1) mod 146097) with 0
      by (apply (Z.mod_unique_pos _ _ (q + 1)); lia).
    rewrite E. vm_compute (civil_adj 146096). vm_compute (civil_adj 0).
    unfold shift_year, lex_ltb. cbv beta iota.
    apply orb_true_iff; right; apply andb_true_iff; split; [apply Z.eqb_eq; ring | reflexivity].
  - replace ((z + 719468 + 1) / 146097) with q
      by (apply (Z.div_unique_pos _ _ _ (r + 1)); lia).
    replace ((z + 719468 + 1) mod 146097) with (r + 1)
      by (apply (Z.mod_unique_pos _ _ q); lia).
    rewrite lex_ltb_shift by reflexivity. apply civil_adj_succ. lia.
Qed.

Lemma civil_from_days_lt (z1 z2 : Z) :
  z1 < z2 -> lex_ltb (civil_from_days z1) (civil_from_days z2) = true.
Proof.
  intros H. replace z2 with (z1 + Z.of_nat (S (Z.to_nat (z2 - z1 - 1)))) by lia.
  induction (Z.to_nat (z2 - z1 - 1)) as [|n IH].
  - apply civil_from_days_succ.
  - eapply lex_ltb_trans; [exact IH|].
    replace (z1 + Z.of_nat (S (S n))) with (z1 + Z.of_nat (S n) + 1) by lia.
    apply civil_from_days_succ.
Qed.

(** ** Order of the formatted dates *)

Lemma compare_app (p1 p2 s1 s2 : string) :
  String.length p1 = String.length p2 ->
  String.compare (p1 ++ s1) (p2 ++ s2) =
  match String.compare p1 p2 with Eq => String.compare s1 s2 | c => c end.
Proof.
  revert p2. induction p1 as [|a p1 IH]; intros [|b p2] H; simpl in H; try discriminate.
  - reflexivity.
  - simpl. destruct (Ascii.compare a b); [apply IH; lia | reflexivity | reflexivity].
Qed.

Lemma compare_dash (s1 s2 : string) :
  String.compare ("-" ++ s1) ("-" ++ s2) = String.compare s1 s2.
Proof. reflexivity. Qed.

Lemma pad_length (n : nat) (x : Z) : String.length (pad n x) = n.
Proof. revert x. induction n as [|n IH]; intros x; simpl; [reflexivity | rewrite IH; reflexivity]. Qed.

Lemma digit_char_compare (a b : Z) :
  0 <= a <= 9 -> 0 <= b <= 9 -> Ascii.compare (digit_char a) (digit_char b) = Z.compare a b.
Proof.
  intros Ha Hb.
  assert (Ea : a = 0 \/ a = 1 \/ a = 2 \/ a = 3 \/ a = 4 \/ a = 5 \/ a = 6 \/ a = 7 \/ a = 8 \/ a = 9)
    by lia.
  assert (Eb : b = 0 \/ b = 1 \/ b = 2 \/ b = 3 \/ b = 4 \/ b = 5 \/ b = 6 \/ b = 7 \/ b = 8 \/ b = 9)
    by lia.
  destruct Ea as [->|[->|[->|[->|[->|[->|[->|[->|[->| ->]]]]]]]]];
  destruct Eb as [->|[->|[->|[->|[->|[->|[->|[->|[->| ->]]]]]]]]]; reflexivity.
Qed.

Lemma Z_compare_digits (p x y : Z) :
  0 < p -> 0 <= x -> 0 <= y ->
  Z.compare x y =
  match Z.compare (x / p) (y / p) with Eq => Z.compare (x mod p) (y mod p) | c => c end.
Proof.
  intros Hp Hx Hy.
  pose proof (Z.div_mod x p ltac:(lia)) as Dx. pose proof (Z.div_mod y p ltac:(lia)) as Dy.
  pose proof (Z.mod_pos_bound x p Hp) as Rx. pose proof (Z.mod_pos_bound y p Hp) as Ry.
  set (qx := x / p) in *. set (qy := y / p) in *.
  set (rx := x mod p) in *. set (ry := y mod p) in *.
  clearbody qx qy rx ry. subst x y.
  destruct (Z.compare_spec qx qy) as [E|L|G].
  - subst qy. cbv beta iota.
    destruct (Z.compare_spec rx ry);
      [apply Z.compare_eq_iff | apply Z.compare_lt_iff | apply Z.compare_gt_iff]; lia.
  - apply Z.compare_lt_iff.
    assert (p * (qx + 1) <= p * qy) by (apply Z.mul_le_mono_nonneg_l; lia). lia.
  - apply Z.compare_gt_iff.
    assert (p * (qy + 1) <= p * qx) by (apply Z.mul_le_mono_nonneg_l; lia). lia.
Qed.

Lemma pad_compare (n : nat) (x y : Z) :
  0 <= x < 10 ^ Z.of_nat n -> 0 <= y < 10 ^ Z.of_nat n ->
  String.compare (pad n x) (pad n y) = Z.compare x y.
Proof.
  revert x y. induction n as [|n IH]; intros x y Hx Hy.
  - simpl in Hx, Hy. replace x with 0 by lia. replace y with 0 by lia. reflexivity.
  - rewrite Nat2Z.inj_succ, Z.pow_succ_r in Hx, Hy by lia.
    assert (Hp : 0 < 10 ^ Z.of_nat n) by (apply Z.pow_pos_nonneg; lia).
    assert (Dx : 0 <= x / 10 ^ Z.of_nat n <= 9).
    { split; [apply Z.div_pos; lia|]. apply Z.lt_succ_r, Z.div_lt_upper_bound; lia. }
    assert (Dy : 0 <= y / 10 ^ Z.of_nat n <= 9).
    { split; [apply Z.div_pos; lia|]. apply Z.lt_succ_r, Z.div_lt_upper_bound; lia. }
    simpl pad. cbn [String.compare].
    rewrite digit_char_compare by assumption.
    rewrite (Z_compare_digits (10 ^ Z.of_nat n) x y) by lia.
    destruct (Z.compare (x / 10 ^ Z.of_nat n) (y / 10 ^ Z.of_nat n)); try reflexivity.
    apply IH; apply Z.mod_pos_bound; lia.
Qed.

Lemma lex_ltb_iff (y1 m1 d1 y2 m2 d2 : Z) :
  lex_ltb (y1, m1, d1) (y2, m2, d2) = true <->
  y1 < y2 \/ (y1 = y2 /\ (m1 < m2 \/ (m1 = m2 /\ d1 < d2))).
Proof.
  unfold lex_ltb. rewrite orb_true_iff, andb_true_iff, orb_true_iff, andb_true_iff,
    !Z.ltb_lt, !Z.eqb_eq. tauto.
Qed.

Lemma format_ymd_gt (y1 m1 d1 y2 m2 d2 : Z) :
  0 <= y1 <= 9999 -> 0 <= y2 <= 9999 -> 0 <= m1 < 100 -> 0 <= m2 < 100 ->
  0 <= d1 < 100 -> 0 <= d2 < 100 ->
  lex_ltb (y2, m2, d2) (y1, m1, d1) = true ->
  str_gt (format_ymd (y1, m1, d1)) (format_ymd (y2, m2, d2)) = true.
Proof.
  intros Hy1 Hy2 Hm1 Hm2 Hd1 Hd2 Hlt. apply lex_ltb_iff in Hlt.
  unfold format_ymd, iso_year.
  replace ((0 <=? y1) && (y1 <=? 9999)) with true
    by (symmetry; apply andb_true_iff; split; apply Z.leb_le; lia).
  replace ((0 <=? y2) && (y2 <=? 9999)) with true
    by (symmetry; apply andb_true_iff; split; apply Z.leb_le; lia).
  unfold str_gt.
  rewrite compare_app by (rewrite !pad_length; reflexivity).
  rewrite compare_dash, compare_app by (rewrite !pad_length; reflexivity).
  rewrite compare_dash.
  rewrite !pad_compare by (simpl; lia).
  destruct (Z.compare_spec y1 y2); [|lia|reflexivity].
  destruct (Z.compare_spec m1 m2); [|lia|reflexivity].
  destruct (Z.compare_spec d1 d2); [lia|lia|reflexivity].
Qed.

(** ** The month step of [getNextMonthInterval] in UTC *)

Lemma Day_mul (z : Z) : Day (z * msPerDay) = z.
Proof. unfold Day, msPerDay. apply Z.div_mul. lia. Qed.

Lemma Day_mul_pred (z : Z) : Day (z * msPerDay - 1) = z - 1.
Proof.
  unfold Day, msPerDay. symmetry. apply (Z.div_unique_pos _ _ _ (86400000 - 1)); lia.
Qed.

Lemma MakeDay_next_month (y m : Z) :
  1 <= m <= 12 ->
  MakeDay y m 1 = days_from_civil (fst (next_month (y, m))) (snd (next_month (y, m))) 1.
Proof.
  intros Hm. unfold MakeDay, next_month.
  destruct (Z.eqb_spec m 12) as [->|N].
  - simpl. change (12 / 12) with 1. ring.
  - rewrite Z.div_small, Z.mod_small by lia. simpl. rewrite Z.add_0_r. ring.
Qed.

Lemma next_month_spec (y m d : Z) :
  1 <= m <= 12 ->
  let '(y', m') := next_month (y, m) in
  1 <= m' <= 12 /\ y <= y' <= y + 1 /\ lex_ltb (y, m, d) (y', m', 1) = true.
Proof.
  intros Hm. unfold next_month.
  destruct (Z.eqb_spec m 12) as [->|N]; (split; [lia | split; [lia |]]);
    apply lex_ltb_iff; lia.
Qed.

Lemma utc_next_month_start (t y m d : Z) :
  civil_from_days (Day t) = (y, m, d) ->
  new_Date_local 0 (getFullYear 0 t) (getMonth 0 t + 1) 1 =
  days_from_civil (fst (next_month (date_ctor_year y, m)))
                  (snd (next_month (date_ctor_year y, m))) 1 * msPerDay.
Proof.
  intros E. pose proof (civil_from_days_range (Day t)) as R. rewrite E in R.
  unfold new_Date_local, getFullYear, getMonth, YearFromTime, MonthFromTime.
  rewrite Z.add_0_r, E. replace (m - 1 + 1) with m by ring.
  rewrite MakeDay_next_month by lia. ring.
Qed.

Lemma date_ctor_year_large (y : Z) : ~ 0 <= y <= 99 -> date_ctor_year y = y.
Proof.
  intros H. unfold date_ctor_year.
  destruct (Z.leb_spec 0 y), (Z.leb_spec y 99); cbn [andb]; lia.
Qed.

Lemma date_ctor_year_range (y : Z) :
  0 <= y -> y <= date_ctor_year y /\ 100 <= date_ctor_year y /\
            (y <= 9997 -> date_ctor_year y <= 9997).
Proof.
  intros H. unfold date_ctor_year.
  destruct (Z.leb_spec 0 y), (Z.leb_spec y 99); cbn [andb]; lia.
Qed.

Lemma lex_ltb_lower_year (y y' m d : Z) (b : Z * Z * Z) :
  y <= y' -> lex_ltb (y', m, d) b = true -> lex_ltb (y, m, d) b = true.
Proof.
  destruct b as [[y2 m2] d2]. rewrite !lex_ltb_iff. lia.
Qed.

Lemma civil_from_days_first_ms (y m : Z) :
  1 <= m <= 12 -> civil_from_days (Day (days_from_civil y m 1 * msPerDay)) = (y, m, 1).
Proof. intros Hm. rewrite Day_mul. apply civil_from_days_first. exact Hm. Qed.

Lemma lex_ltb_year (y1 m1 d1 y2 m2 d2 : Z) :
  lex_ltb (y1, m1, d1) (y2, m2, d2) = true -> y1 <= y2.
Proof. rewrite lex_ltb_iff. lia. Qed.

(** ** 4.1 Interval Planner: a second run within the month *)

(** C4: in UTC, when the latest extraction date of a nonempty store lies
    in the calendar month of today (year 0..9997), the window computed by
    the run starts after its clipped end (the end is today, the start is
    the first of next month), and the run still sends exactly this
    reversed window to the API: nothing in the driver skips the request. *)
Theorem same_month_run_requests_reversed_window (now : Z) (callApi : api) (writeFile : fs_write)
    (D : list record) (d : string) (t : Z) :
  D <> [] ->
  findLatestExtractionDate D = Some d ->
  parseCustomDate d = Some t ->
  YearFromTime t = YearFromTime now ->
  MonthFromTime t = MonthFromTime now ->
  0 <= YearFromTime now <= 9997 ->
  exists w,
    next_window 0 (formatDate now) D = Some w /\
    endDate w = formatDate now /\
    str_gt (startDate w) (endDate w) = true /\
    requests (fetchAllDataIncremental 0 now callApi writeFile (FileText (Some (JArr D)))) = [w].
Proof.
  intros Hne Hd Ht HY HM Hb.
  destruct (civil_from_days (Day now)) as [[Y M] Dn] eqn:En.
  destruct (civil_from_days (Day t)) as [[Yt Mt] Dt] eqn:Et.
  unfold YearFromTime, MonthFromTime in HY, HM, Hb. rewrite En, Et in *.
  assert (Mt = M) by lia. subst Yt Mt.
  pose proof (civil_from_days_range (Day now)) as Rn. rewrite En in Rn.
  destruct (date_ctor_year_range Y ltac:(lia)) as [YY1 [YY2 YY3]].
  specialize (YY3 ltac:(lia)).
  destruct (next_month (date_ctor_year Y, M)) as [Y1 M1] eqn:N1.
  pose proof (next_month_spec (date_ctor_year Y) M Dn ltac:(lia)) as S1. rewrite N1 in S1.
  destruct S1 as [RM1 [RY1 L1]].
  apply (lex_ltb_lower_year Y) in L1; [|exact YY1].
  destruct (next_month (Y1, M1)) as [Y2 M2] eqn:N2.
  pose proof (next_month_spec Y1 M1 1 RM1) as S2. rewrite N2 in S2.
  destruct S2 as [RM2 [RY2 L2]].
  set (D1 := days_from_civil Y1 M1 1).
  set (D2 := days_from_civil Y2 M2 1).
  assert (C1 : civil_from_days D1 = (Y1, M1, 1)) by (apply civil_from_days_first; lia).
  assert (C2 : civil_from_days D2 = (Y2, M2, 1)) by (apply civil_from_days_first; lia).
  (* the window of getNextMonthInterval *)
  assert (Hg : getNextMonthInterval 0 d =
               Some {| startDate := format_ymd (Y1, M1, 1);
                       endDate := formatDate (D2 * msPerDay - 1) |}).
  { unfold getNextMonthInterval. rewrite Ht.
    rewrite (utc_next_month_start t Y M Dt Et), N1. simpl fst. simpl snd. fold D1.
    rewrite (utc_next_month_start (D1 * msPerDay) Y1 M1 1)
      by (rewrite Day_mul; exact C1).
    rewrite (date_ctor_year_large Y1) by lia.
    rewrite N2. simpl fst. simpl snd. fold D2.
    unfold formatDate at 1. rewrite Day_mul, C1. reflexivity. }
  (* D1 < D2 *)
  assert (Hlt : D1 < D2).
  { destruct (Z.lt_trichotomy D1 D2) as [H|[H|H]]; [exact H| |].
    - rewrite H, C2 in C1. injection C1 as <- <-. rewrite lex_ltb_irrefl in L2. discriminate.
    - pose proof (civil_from_days_lt D2 D1 H) as X. rewrite C1, C2 in X.
      pose proof (lex_ltb_trans _ _ _ X L2) as Z'. rewrite lex_ltb_irrefl in Z'. discriminate. }
  (* the last day of the month *)
  destruct (civil_from_days (D2 - 1)) as [[Ye Me] De] eqn:Ee.
  pose proof (civil_from_days_range (D2 - 1)) as Re. rewrite Ee in Re.
  assert (Le : lex_ltb (Y, M, Dn) (Ye, Me, De) = true).
  { destruct (Z.eq_dec D1 (D2 - 1)) as [H|H].
    - rewrite <- H, C1 in Ee. injection Ee as <- <- <-. exact L1.
    - pose proof (civil_from_days_lt D1 (D2 - 1) ltac:(lia)) as X. rewrite C1, Ee in X.
      exact (lex_ltb_trans _ _ _ L1 X). }
  assert (Ue : lex_ltb (Ye, Me, De) (Y2, M2, 1) = true).
  { pose proof (civil_from_days_lt (D2 - 1) D2 ltac:(lia)) as X. rewrite Ee, C2 in X. exact X. }
  apply lex_ltb_year in Le. apply lex_ltb_year in Ue.
  assert (Fn : formatDate now = format_ymd (Y, M, Dn)) by (unfold formatDate; rewrite En; reflexivity).
  assert (Fe : formatDate (D2 * msPerDay - 1) = format_ymd (Ye, Me, De))
    by (unfold formatDate; rewrite Day_mul_pred, Ee; reflexivity).
  assert (Gs : str_gt (format_ymd (Y1, M1, 1)) (format_ymd (Y, M, Dn)) = true)
    by (apply format_ymd_gt; lia || exact L1).
  assert (Ge : str_gt (format_ymd (Ye, Me, De)) (format_ymd (Y, M, Dn)) = true).
  { apply format_ymd_gt; try lia.
    destruct (Z.eq_dec D1 (D2 - 1)) as [H|H].
    - rewrite <- H, C1 in Ee. injection Ee as <- <- <-. exact L1.
    - pose proof (civil_from_days_lt D1 (D2 - 1) ltac:(lia)) as X. rewrite C1, Ee in X.
      exact (lex_ltb_trans _ _ _ L1 X). }
  assert (Hw : next_window 0 (formatDate now) D =
               Some {| startDate := format_ymd (Y1, M1, 1); endDate := formatDate now |}).
  { unfold next_window.
    destruct D as [|r D']; [congruence|]. simpl Nat.eqb. cbv iota.
    rewrite Hd.
    destruct (String.eqb_spec d "") as [->|_].
    - rewrite parseCustomDate_empty in Ht. discriminate.
    - rewrite Hg. simpl. unfold clip_window. simpl. rewrite Fe, Fn, Ge. reflexivity. }
  eexists. split; [exact Hw|]. simpl. split; [reflexivity|]. split; [rewrite Fn; exact Gs|].
  unfold fetchAllDataIncremental. simpl readExistingData. rewrite Hw.
  destruct (fetchData callApi _ _) as [[]|]; try reflexivity.
  destruct (Nat.eqb _ 0); [reflexivity|]. destruct (writeFile _); reflexivity.
Qed.

Lemma same_month_run_requests_reversed_window_witness :
  exists w,
    next_window 0 (formatDate noon_2023_04_10) [sample 1 "05.04.2023"] = Some w /\
    endDate w = formatDate noon_2023_04_10 /\
    str_gt (startDate w) (endDate w) = true /\
    requests (fetchAllDataIncremental 0 noon_2023_04_10 (api_returning []) write_ok
                (FileText (Some (JArr [sample 1 "05.04.2023"])))) = [w].
Proof.
  apply (same_month_run_requests_reversed_window noon_2023_04_10 (api_returning []) write_ok
           [sample 1 "05.04.2023"] "05.04.2023" 1680652800000).
  - discriminate.
  - vm_compute. reflexivity.
  - vm_compute. reflexivity.
  - vm_compute. reflexivity.
  - vm_compute. reflexivity.
  - assert (E : YearFromTime noon_2023_04_10 = 2023) by (vm_compute; reflexivity).
    rewrite E. lia.
Defined.

(** C3: the window of a run whose store's latest record is dated
    15.03.2023, on 2023-04-10 (noon UTC), depends on the host time zone.
    In UTC it is 2023-04-01 .. 2023-04-10, the month-end 2023-04-30 being
    clipped to today. In Europe/Berlin summer time (UTC+2) the start is
    2023-03-31: [new Date(2023, 3, 1)] is local midnight, 22:00 UTC of
    the previous day, and [toISOString] prints the UTC date. *)
Theorem window_after_15_03_2023_depends_on_zone :
  requests (fetchAllDataIncremental 7200000 noon_2023_04_10 (api_returning []) write_ok
              (FileText (Some (JArr [rec0])))) =
    [{| startDate := "2023-03-31"; endDate := "2023-04-10" |}] /\
  requests (fetchAllDataIncremental 0 noon_2023_04_10 (api_returning []) write_ok
              (FileText (Some (JArr [rec0])))) =
    [{| startDate := "2023-04-01"; endDate := "2023-04-10" |}].
Proof. split; vm_compute; reflexivity. Qed.

(** C5: [getNextMonthInterval] gives the first and the last day of the
    next month only on a host in UTC. East of UTC (UTC+2) the start is
    the last day of the current month; west of UTC (UTC-5) the end is
    the first day of the month after. In UTC the windows are right,
    across a leap-year February too. *)
Theorem next_month_interval_depends_on_zone :
  getNextMonthInterval 7200000 "15.03.2023" =
    Some {| startDate := "2023-03-31"; endDate := "2023-04-30" |} /\
  getNextMonthInterval (-18000000) "01.04.2023" =
    Some {| startDate := "2023-04-01"; endDate := "2023-05-01" |} /\
  getNextMonthInterval 0 "15.03.2023" =
    Some {| startDate := "2023-04-01"; endDate := "2023-04-30" |} /\
  getNextMonthInterval 0 "31.01.2024" =
    Some {| startDate := "2024-02-01"; endDate := "2024-02-29" |}.
Proof. repeat split; vm_compute; reflexivity. Qed.

(* ------------------------------------------------------------------ *)
(** ** The day after, and the length of the months *)

Lemma scan_succ_spec (n : nat) (doe : Z) :
  scan_succ n doe (civil_adj doe) = true ->
  forall k : nat, (k < n)%nat ->
    civil_adj (doe + Z.of_nat k + 1) = succ_date (civil_adj (doe + Z.of_nat k)).
Proof.
  revert doe; induction n as [|n IH]; intros doe H k Hk; [lia|].
  simpl in H. apply andb_true_iff in H as [Hs H].
  destruct k as [|k].
  - rewrite Z.add_0_r. apply ymd_eqb_true. exact Hs.
  - replace (doe + Z.of_nat (S k)) with (doe + 1 + Z.of_nat k) by lia.
    apply (IH (doe + 1) H k). lia.
Qed.

Lemma era_succ_facts : scan_succ (Z.to_nat 146096) 0 (civil_adj 0) = true.
Proof. vm_compute. reflexivity. Qed.

Lemma civil_adj_succ_date (doe : Z) :
  0 <= doe < 146096 -> civil_adj (doe + 1) = succ_date (civil_adj doe).
Proof.
  intros H. pose proof (scan_succ_spec _ _ era_succ_facts (Z.to_nat doe)) as X.
  rewrite Z2Nat.id in X by lia. apply X. apply Z2Nat.inj_lt; lia.
Qed.

Lemma leap_year_shift (y k : Z) : leap_year (y + k * 400) = leap_year y.
Proof.
  unfold leap_year.
  replace (y + k * 400) with (y + (k * 100) * 4) by ring. rewrite Z.mod_add by lia.
  replace (y + k * 100 * 4) with (y + (k * 4) * 100) by ring. rewrite Z.mod_add by lia.
  replace (y + k * 4 * 100) with (y + k * 400) by ring. rewrite Z.mod_add by lia.
  reflexivity.
Qed.

Lemma days_in_month_shift (y m k : Z) : days_in_month (y + k * 400) m = days_in_month y m.
Proof. unfold days_in_month. rewrite leap_year_shift. reflexivity. Qed.

Lemma succ_date_shift (k : Z) (c : Z * Z * Z) :
  succ_date (shift_year (k * 400) c) = shift_year (k * 400) (succ_date c).
Proof.
  destruct c as [[y m] d]. unfold succ_date, shift_year. rewrite days_in_month_shift.
  destruct (d <? days_in_month y m); [reflexivity|].
  unfold next_month. destruct (m =? 12); f_equal; f_equal; ring.
Qed.

Lemma civil_from_days_succ_date (z : Z) :
  civil_from_days (z + 1) = succ_date (civil_from_days z).
Proof.
  rewrite !civil_from_days_decomp.
  set (q := (z + 719468) / 146097).
  set (r := (z + 719468) mod 146097).
  assert (Hz : z + 719468 = 146097 * q + r) by (apply Z.div_mod; lia).
  assert (Hr : 0 <= r < 146097) by (apply Z.mod_pos_bound; lia).
  replace (z + 1 + 719468) with (z + 719468 + 1) by ring.
  rewrite succ_date_shift.
  destruct (Z.eq_dec r 146096) as [E|E].
  - replace ((z + 719468 + 1) / 146097) with (q + 1)
      by (apply (Z.div_unique_pos _ _ _ 0); lia).
    replace ((z + 719468 + 1) mod 146097) with 0
      by (apply (Z.mod_unique_pos _ _ (q + 1)); lia).
    rewrite E. vm_compute (civil_adj 146096). vm_compute (civil_adj 0).
    vm_compute (succ_date (400, 2, 29)). unfold shift_year. f_equal. f_equal. ring.
  - replace ((z + 719468 + 1) / 146097) with q
      by (apply (Z.div_unique_pos _ _ _ (r + 1)); lia).
    replace ((z + 719468 + 1) mod 146097) with (r + 1)
      by (apply (Z.mod_unique_pos _ _ q); lia).
    rewrite civil_adj_succ_date by lia. reflexivity.
Qed.

Lemma days_in_month_range (y m : Z) : 28 <= days_in_month y m <= 31.
Proof.
  unfold days_in_month. destruct (m =? 2); [destruct (leap_year y); lia|].
  destruct (_ || _); lia.
Qed.

Lemma civil_from_days_walk (z y m : Z) :
  civil_from_days z = (y, m, 1) ->
  forall k, 0 <= k < days_in_month y m -> civil_from_days (z + k) = (y, m, 1 + k).
Proof.
  intros H k Hk. destruct Hk as [Hk0 Hk1]. revert Hk1.
  pattern k. apply natlike_ind; [intros _; rewrite Z.add_0_r; exact H | | exact Hk0].
  intros j Hj IH Hlt.
  replace (z + Z.succ j) with (z + j + 1) by lia.
  rewrite civil_from_days_succ_date, IH by lia. unfold succ_date.
  replace (1 + j <? days_in_month y m) with true by (symmetry; apply Z.ltb_lt; lia).
  f_equal. lia.
Qed.

Lemma civil_from_days_month_end (z y m : Z) :
  civil_from_days z = (y, m, 1) ->
  civil_from_days (z + days_in_month y m - 1) = (y, m, days_in_month y m) /\
  civil_from_days (z + days_in_month y m) =
    (fst (next_month (y, m)), snd (next_month (y, m)), 1).
Proof.
  intros H. pose proof (days_in_month_range y m) as R.
  assert (L : civil_from_days (z + (days_in_month y m - 1)) = (y, m, days_in_month y m)).
  { rewrite (civil_from_days_walk z y m H) by lia. f_equal. lia. }
  replace (z + (days_in_month y m - 1)) with (z + days_in_month y m - 1) in L by ring.
  split; [exact L|].
  replace (z + days_in_month y m) with (z + days_in_month y m - 1 + 1) by ring.
  rewrite civil_from_days_succ_date, L. unfold succ_date. rewrite Z.ltb_irrefl.
  destruct (next_month (y, m)); reflexivity.
Qed.

Lemma civil_from_days_inj (z1 z2 : Z) : civil_from_days z1 = civil_from_days z2 -> z1 = z2.
Proof.
  intros H. destruct (Z.lt_trichotomy z1 z2) as [L|[E|L]]; [|exact E|].
  - pose proof (civil_from_days_lt _ _ L) as X. rewrite H, lex_ltb_irrefl in X. discriminate.
  - pose proof (civil_from_days_lt _ _ L) as X. rewrite H, lex_ltb_irrefl in X. discriminate.
Qed.

Lemma days_from_civil_day (y m d : Z) : days_from_civil y m d = days_from_civil y m 1 + (d - 1).
Proof. unfold days_from_civil, doe_of. ring. Qed.

Lemma civil_from_days_days_from_civil (y m d : Z) :
  1 <= m <= 12 -> 1 <= d <= days_in_month y m ->
  civil_from_days (days_from_civil y m d) = (y, m, d).
Proof.
  intros Hm Hd. rewrite days_from_civil_day.
  rewrite (civil_from_days_walk _ y m (civil_from_days_first y m Hm)) by lia.
  f_equal. lia.
Qed.

(* ------------------------------------------------------------------ *)
(** ** Parsing zero-padded dates *)

Lemma digit_val_char (a : Z) : 0 <= a <= 9 -> digit_val (digit_char a) = Some a.
Proof.
  intros Ha.
  assert (Ea : a = 0 \/ a = 1 \/ a = 2 \/ a = 3 \/ a = 4 \/ a = 5 \/ a = 6 \/ a = 7 \/ a = 8 \/ a = 9)
    by lia.
  destruct Ea as [->|[->|[->|[->|[->|[->|[->|[->|[->| ->]]]]]]]]]; reflexivity.
Qed.

Lemma digit_char_not_dot (a : Z) : 0 <= a <= 9 -> Ascii.eqb (digit_char a) "." = false.
Proof.
  intros Ha.
  assert (Ea : a = 0 \/ a = 1 \/ a = 2 \/ a = 3 \/ a = 4 \/ a = 5 \/ a = 6 \/ a = 7 \/ a = 8 \/ a = 9)
    by lia.
  destruct Ea as [->|[->|[->|[->|[->|[->|[->|[->|[->| ->]]]]]]]]]; reflexivity.
Qed.

Lemma pad2_digits (x : Z) :
  0 <= x <= 99 ->
  exists b1 b2, pad 2 x = String (digit_char b1) (String (digit_char b2) EmptyString) /\
    0 <= b1 <= 9 /\ 0 <= b2 <= 9 /\ b1 * 10 + b2 = x.
Proof.
  intros Hx. exists (x / 10), (x mod 10 / 1). split; [reflexivity|].
  rewrite Z.div_1_r.
  pose proof (Z.div_mod x 10 ltac:(lia)). pose proof (Z.mod_pos_bound x 10 ltac:(lia)). lia.
Qed.

Lemma pad4_digits (y : Z) :
  0 <= y <= 9999 ->
  exists a1 a2 a3 a4,
    pad 4 y = String (digit_char a1) (String (digit_char a2)
                (String (digit_char a3) (String (digit_char a4) EmptyString))) /\
    0 <= a1 <= 9 /\ 0 <= a2 <= 9 /\ 0 <= a3 <= 9 /\ 0 <= a4 <= 9 /\
    a1 * 1000 + a2 * 100 + a3 * 10 + a4 = y.
Proof.
  intros Hy.
  exists (y / 1000), (y mod 1000 / 100), (y mod 1000 mod 100 / 10), (y mod 1000 mod 100 mod 10 / 1).
  split; [reflexivity|]. rewrite Z.div_1_r.
  pose proof (Z.div_mod y 1000 ltac:(lia)). pose proof (Z.mod_pos_bound y 1000 ltac:(lia)).
  pose proof (Z.div_mod (y mod 1000) 100 ltac:(lia)).
  pose proof (Z.mod_pos_bound (y mod 1000) 100 ltac:(lia)).
  pose proof (Z.div_mod (y mod 1000 mod 100) 10 ltac:(lia)).
  pose proof (Z.mod_pos_bound (y mod 1000 mod 100) 10 ltac:(lia)).
  lia.
Qed.

Lemma MakeDay_month_index (y m d : Z) :
  1 <= m <= 12 -> MakeDay y (m - 1) d = days_from_civil y m d.
Proof.
  intros Hm. unfold MakeDay.
  rewrite Z.div_small, Z.mod_small by lia. rewrite Z.add_0_r.
  replace (m - 1 + 1) with m by ring. rewrite (days_from_civil_day y m d). ring.
Qed.

Lemma parseCustomDate_ddmmyyyy (y m d : Z) :
  0 <= y <= 9999 -> 1 <= m <= 12 -> 1 <= d <= 31 ->
  parseCustomDate (ddmmyyyy y m d) = Some (days_from_civil y m d * msPerDay).
Proof.
  intros Hy Hm Hd.
  destruct (pad4_digits y Hy) as [a1 [a2 [a3 [a4 [Py [Ha1 [Ha2 [Ha3 [Ha4 Ey]]]]]]]]].
  destruct (pad2_digits m ltac:(lia)) as [b1 [b2 [Pm [Hb1 [Hb2 Em]]]]].
  destruct (pad2_digits d ltac:(lia)) as [c1 [c2 [Pd [Hc1 [Hc2 Ed]]]]].
  unfold parseCustomDate, ddmmyyyy. rewrite Py, Pm, Pd.
  cbn -[digit_char digit_val Z.mul Z.add].
  rewrite !digit_char_not_dot by assumption.
  cbn -[digit_char digit_val Z.mul Z.add].
  unfold parse_iso_date. rewrite !digit_val_char by assumption.
  cbn -[digit_char MakeDay Z.mul Z.add Z.leb].
  rewrite Ey, Em, Ed.
  replace ((1 <=? m) && (m <=? 12) && (1 <=? d) && (d <=? 31)) with true
    by (symmetry; rewrite !andb_true_iff, !Z.leb_le; lia).
  rewrite MakeDay_month_index by lia. reflexivity.
Qed.

(** A real calendar date written dd.mm.yyyy (year 0000..9999) parses to
    the UTC midnight of that day, and [formatDate] of it gives back the
    same day as YYYY-MM-DD. *)
Theorem parseCustomDate_formatDate_roundtrip (y m d : Z) :
  0 <= y <= 9999 -> 1 <= m <= 12 -> 1 <= d <= days_in_month y m ->
  parseCustomDate (ddmmyyyy y m d) = Some (days_from_civil y m d * msPerDay) /\
  formatDate (days_from_civil y m d * msPerDay) = (pad 4 y ++ "-" ++ pad 2 m ++ "-" ++ pad 2 d)%string.
Proof.
  intros Hy Hm Hd. pose proof (days_in_month_range y m).
  split; [apply parseCustomDate_ddmmyyyy; lia|].
  unfold formatDate. rewrite Day_mul, civil_from_days_days_from_civil by lia.
  unfold format_ymd, iso_year.
  replace ((0 <=? y) && (y <=? 9999)) with true
    by (symmetry; apply andb_true_iff; split; apply Z.leb_le; lia).
  reflexivity.
Qed.

Lemma days_from_civil_next_month (y m : Z) :
  1 <= m <= 12 ->
  days_from_civil (fst (next_month (y, m))) (snd (next_month (y, m))) 1 =
  days_from_civil y m 1 + days_in_month y m.
Proof.
  intros Hm. apply civil_from_days_inj.
  destruct (civil_from_days_month_end _ y m (civil_from_days_first y m Hm)) as [_ E].
  rewrite E. apply civil_from_days_first.
  unfold next_month. destruct (Z.eqb_spec m 12); simpl; lia.
Qed.

(** A day number past the end of its month (up to 31) is not rejected:
    it rolls over into the next month, so 31.04.2023 is read as
    01.05.2023. *)
Theorem parseCustomDate_day_overflow (y m d : Z) :
  0 <= y -> fst (next_month (y, m)) <= 9999 -> 1 <= m <= 12 ->
  days_in_month y m < d <= 31 ->
  parseCustomDate (ddmmyyyy y m d) =
  parseCustomDate (ddmmyyyy (fst (next_month (y, m))) (snd (next_month (y, m)))
                            (d - days_in_month y m)).
Proof.
  intros Hy Hy' Hm Hd. pose proof (days_in_month_range y m).
  assert (Rm : 1 <= snd (next_month (y, m)) <= 12)
    by (unfold next_month; destruct (Z.eqb_spec m 12); simpl; lia).
  assert (Ry : y <= fst (next_month (y, m)))
    by (unfold next_month; destruct (Z.eqb_spec m 12); simpl; lia).
  rewrite !parseCustomDate_ddmmyyyy by lia. f_equal. f_equal.
  rewrite (days_from_civil_day y m d), (days_from_civil_day _ _ (d - days_in_month y m)).
  rewrite days_from_civil_next_month by lia. ring.
Qed.

Lemma digit_val_range (c : ascii) (a : Z) : digit_val c = Some a -> 0 <= a <= 9.
Proof.
  unfold digit_val. destruct ((48 <=? _) && (_ <=? 57)) eqn:E; [|discriminate].
  intros H. injection H as <-. apply andb_true_iff in E as [E1 E2].
  apply Z.leb_le in E1. apply Z.leb_le in E2. lia.
Qed.

Lemma parse_iso_date_shape (s : string) (t : Z) :
  parse_iso_date s = Some t ->
  exists y m d, 0 <= y <= 9999 /\ 1 <= m <= 12 /\ 1 <= d <= 31 /\
    t = MakeDay y (m - 1) d * msPerDay.
Proof.
  intros H.
  destruct s as [|c1 [|c2 [|c3 [|c4 [|c5 [|c6 [|c7 [|c8 [|c9 [|c10 [|c11 s]]]]]]]]]]];
    try discriminate H.
  unfold parse_iso_date in H.
  destruct (Ascii.eqb c5 "-" && Ascii.eqb c8 "-"); [|discriminate H].
  destruct (digit_val c1) as [a1|] eqn:E1; [|discriminate H].
  destruct (digit_val c2) as [a2|] eqn:E2; [|discriminate H].
  destruct (digit_val c3) as [a3|] eqn:E3; [|discriminate H].
  destruct (digit_val c4) as [a4|] eqn:E4; [|discriminate H].
  destruct (digit_val c6) as [b1|] eqn:F1; [|discriminate H].
  destruct (digit_val c7) as [b2|] eqn:F2; [|discriminate H].
  destruct (digit_val c9) as [d1|] eqn:G1; [|discriminate H].
  destruct (digit_val c10) as [d2|] eqn:G2; [|discriminate H].
  apply digit_val_range in E1, E2, E3, E4, F1, F2, G1, G2.
  match type of H with (if ?c then _ else _) = _ => destruct c eqn:R end; [|discriminate H].
  rewrite !andb_true_iff, !Z.leb_le in R.
  injection H as <-.
  exists (a1 * 1000 + a2 * 100 + a3 * 10 + a4), (b1 * 10 + b2), (d1 * 10 + d2).
  repeat split; lia.
Qed.

Lemma days_from_civil_lower (y m : Z) :
  0 <= y -> 1 <= m <= 12 -> days_from_civil 0 1 1 <= days_from_civil y m 1.
Proof.
  intros Hy Hm. change (days_from_civil 0 1 1) with (-719528).
  unfold days_from_civil, doe_of.
  destruct (Z.leb_spec m 2).
  - destruct (Z.eq_dec y 0) as [->|Ny].
    + assert (m = 1 \/ m = 2) as [->| ->] by lia; vm_compute; discriminate.
    + pose proof (Z.div_pos (y - 1) 400 ltac:(lia) ltac:(lia)).
      pose proof (Z.mod_pos_bound (y - 1) 400 ltac:(lia)).
      rewrite <- Z.mul_comm, <- Zmod_eq_full by lia.
      set (yoe := (y - 1) mod 400) in *.
      pose proof (Z.div_pos yoe 4 ltac:(lia) ltac:(lia)).
      pose proof (Z.div_le_compat_l yoe 4 100 ltac:(lia) ltac:(lia)).
      pose proof (Z.div_pos (153 * ((m + 9) mod 12) + 2) 5 ltac:(pose proof (Z.mod_pos_bound (m + 9) 12); lia) ltac:(lia)).
      nia.
  - pose proof (Z.div_pos y 400 ltac:(lia) ltac:(lia)).
    pose proof (Z.mod_pos_bound y 400 ltac:(lia)).
    rewrite <- Z.mul_comm, <- Zmod_eq_full by lia.
    set (yoe := y mod 400) in *.
    pose proof (Z.div_pos yoe 4 ltac:(lia) ltac:(lia)).
    pose proof (Z.div_le_compat_l yoe 4 100 ltac:(lia) ltac:(lia)).
    pose proof (Z.div_pos (153 * ((m + 9) mod 12) + 2) 5 ltac:(pose proof (Z.mod_pos_bound (m + 9) 12); lia) ltac:(lia)).
    nia.
Qed.

Lemma parseCustomDate_year_nonneg (s : string) (t : Z) :
  parseCustomDate s = Some t -> 0 <= YearFromTime t.
Proof.
  unfold parseCustomDate. intros H.
  destruct (parse_iso_date_shape _ _ H) as [y [m [d [Hy [Hm [Hd ->]]]]]].
  rewrite MakeDay_month_index by exact Hm. rewrite days_from_civil_day.
  pose proof (days_from_civil_lower y m (proj1 Hy) Hm) as L.
  unfold YearFromTime. rewrite Day_mul.
  set (z := days_from_civil y m 1 + (d - 1)).
  destruct (civil_from_days z) as [[Y M] D] eqn:Ez.
  destruct (Z.eq_dec z (days_from_civil 0 1 1)) as [E|E].
  - rewrite E, civil_from_days_first in Ez by lia. injection Ez as <- _ _. lia.
  - pose proof (civil_from_days_lt (days_from_civil 0 1 1) z ltac:(lia)) as X.
    rewrite civil_from_days_first, Ez in X by lia.
    apply lex_ltb_year in X. exact X.
Qed.

Lemma getNextMonthInterval_utc_spec (d : string) (t : Z) :
  parseCustomDate d = Some t ->
  let '(y1, m1) := next_month (date_ctor_year (YearFromTime t), MonthFromTime t + 1) in
  getNextMonthInterval 0 d =
    Some {| startDate := format_ymd (y1, m1, 1);
            endDate := format_ymd (y1, m1, days_in_month y1 m1) |}.
Proof.
  intros Ht. pose proof (parseCustomDate_year_nonneg d t Ht) as Hy.
  destruct (civil_from_days (Day t)) as [[Y M] Dt] eqn:Et.
  pose proof (civil_from_days_range (Day t)) as R. rewrite Et in R.
  unfold YearFromTime, MonthFromTime in *. rewrite Et in *. replace (M - 1 + 1) with M by ring.
  destruct (date_ctor_year_range Y Hy) as [YY1 [YY2 _]].
  destruct (next_month (date_ctor_year Y, M)) as [Y1 M1] eqn:N1.
  pose proof (next_month_spec (date_ctor_year Y) M Dt ltac:(lia)) as S1. rewrite N1 in S1.
  destruct S1 as [RM1 [RY1 _]].
  set (D1 := days_from_civil Y1 M1 1).
  assert (C1 : civil_from_days D1 = (Y1, M1, 1)) by (apply civil_from_days_first; lia).
  unfold getNextMonthInterval. rewrite Ht.
  rewrite (utc_next_month_start t Y M Dt Et), N1. simpl fst. simpl snd. fold D1.
  rewrite (utc_next_month_start (D1 * msPerDay) Y1 M1 1) by (rewrite Day_mul; exact C1).
  rewrite (date_ctor_year_large Y1) by lia.
  rewrite days_from_civil_next_month by exact RM1. fold D1.
  destruct (civil_from_days_month_end D1 Y1 M1 C1) as [E _].
  unfold formatDate. rewrite Day_mul, C1, Day_mul_pred, E. reflexivity.
Qed.

(** On a host in UTC, [getNextMonthInterval] gives the first and the last
    day of the month after the date's month, for every month length and
    leap year. The year goes through the Date constructor, which reads a
    year 0..99 as 1900 + y: 15.03.0050 gives 1950-04-01 .. 1950-04-30. *)
Theorem getNextMonthInterval_utc (d : string) (t : Z) :
  parseCustomDate d = Some t ->
  let '(y1, m1) := next_month (date_ctor_year (YearFromTime t), MonthFromTime t + 1) in
  getNextMonthInterval 0 d =
    Some {| startDate := format_ymd (y1, m1, 1);
            endDate := format_ymd (y1, m1, days_in_month y1 m1) |}.
Proof. exact (getNextMonthInterval_utc_spec d t). Qed.

(* ------------------------------------------------------------------ *)
(** ** Sorting by extraction date *)

Lemma date_le_trans (a b c : record) : date_le a b -> date_le b c -> date_le a c.
Proof.
  intros [x [y [Hx [Hy Hxy]]]] [y' [z [Hy' [Hz Hyz]]]].
  rewrite Hy in Hy'. injection Hy' as <-. exists x, z. repeat split; auto. lia.
Qed.

Lemma StronglySorted_app_before (acc l : list record) (x : record) :
  StronglySorted date_le (acc ++ x :: l) -> forall y, In y acc -> date_le y x.
Proof.
  induction acc as [|a acc IH]; simpl; intros H y Hy; [contradiction|].
  apply StronglySorted_inv in H as [H1 H2].
  destruct Hy as [<-|Hy].
  - rewrite Forall_forall in H2. apply H2. apply in_or_app. right. left. reflexivity.
  - apply IH; auto.
Qed.

Lemma insert_sorted_last (x : record) (acc : list record) :
  (forall y, In y acc -> date_le y x) ->
  insert_sorted by_date_asc x acc = acc ++ [x].
Proof.
  induction acc as [|y ys IH]; intros H; simpl; [reflexivity|].
  destruct (H y (or_introl eq_refl)) as [py [px [Ey [Ex Le]]]].
  assert (Cmp : SortCompare by_date_asc x y = px - py)
    by (unfold SortCompare, by_date_asc; rewrite Ex, Ey; reflexivity).
  rewrite Cmp.
  replace (px - py <? 0) with false by (symmetry; apply Z.ltb_ge; lia).
  rewrite IH; [reflexivity|]. intros z Hz. apply H. right. exact Hz.
Qed.

Lemma fold_insert_sorted_id (l acc : list record) :
  StronglySorted date_le (acc ++ l) ->
  fold_left (fun acc x => insert_sorted by_date_asc x acc) l acc = acc ++ l.
Proof.
  revert acc. induction l as [|x l IH]; intros acc H; simpl; [rewrite app_nil_r; reflexivity|].
  rewrite insert_sorted_last by (apply (StronglySorted_app_before acc l x H)).
  rewrite IH; [rewrite <- app_assoc; reflexivity|]. rewrite <- app_assoc. exact H.
Qed.

(** Sorting a dataset that is already ascending leaves it as it is: the
    merge of a sorted dataset with no new record is the same sequence. *)
Theorem merge_sorted_no_new_identity (D : list record) :
  dataset_sorted D -> merge D [] = D.
Proof.
  intros H. unfold merge, js_sort. rewrite app_nil_r.
  apply (fold_insert_sorted_id D []). apply Sorted_StronglySorted; [exact date_le_trans | exact H].
Qed.

Lemma filter_all_false {A : Type} (f : A -> bool) (l : list A) :
  (forall z, In z l -> f z = false) -> List.filter f l = [].
Proof.
  induction l as [|a l IH]; intros H; simpl; [reflexivity|].
  rewrite (H a (or_introl eq_refl)). apply IH. intros z Hz. apply H. right. exact Hz.
Qed.

Lemma date_is_true (v : Z) (r : record) :
  date_is v r = true <-> parseCustomDate (extraction_date r) = Some v.
Proof.
  unfold date_is. destruct (parseCustomDate (extraction_date r)); [|split; discriminate].
  rewrite Z.eqb_eq. split; [intros ->; reflexivity | intros H; injection H; auto].
Qed.

Lemma insert_sorted_filter_date (v : Z) (x : record) (l : list record) :
  dates_parse (x :: l) -> StronglySorted date_le l ->
  List.filter (date_is v) (insert_sorted by_date_asc x l) =
  List.filter (date_is v) l ++ List.filter (date_is v) [x].
Proof.
  induction l as [|y ys IH]; intros HP HS; [reflexivity|].
  assert (Px : parseCustomDate (extraction_date x) <> None) by (apply HP; left; auto).
  assert (Py : parseCustomDate (extraction_date y) <> None) by (apply HP; right; left; auto).
  destruct (parseCustomDate (extraction_date x)) as [px|] eqn:Ex; [|congruence].
  destruct (parseCustomDate (extraction_date y)) as [py|] eqn:Ey; [|congruence].
  apply StronglySorted_inv in HS as [HS Hall]. rewrite Forall_forall in Hall.
  assert (Cmp : SortCompare by_date_asc x y = px - py)
    by (unfold SortCompare, by_date_asc; rewrite Ex, Ey; reflexivity).
  simpl insert_sorted. rewrite Cmp.
  destruct (px - py <? 0) eqn:C.
  - apply Z.ltb_lt in C.
    (* no record of y :: ys has the date of x *)
    assert (None_v : date_is v x = true -> List.filter (date_is v) (y :: ys) = []).
    { intros Hx. apply date_is_true in Hx. rewrite Ex in Hx. injection Hx as <-.
      apply filter_all_false. intros z [<-|Hz]; apply Bool.not_true_iff_false; rewrite date_is_true.
      - rewrite Ey. intros E. injection E. lia.
      - destruct (Hall z Hz) as [py' [pz [Ey' [Ez Le]]]]. rewrite Ey in Ey'. injection Ey' as <-.
        rewrite Ez. intros E. injection E. lia. }
    cbn [List.filter].
    destruct (date_is v x) eqn:Dx.
    + pose proof (None_v eq_refl) as N. cbn [List.filter] in N. rewrite N. reflexivity.
    + rewrite app_nil_r. reflexivity.
  - cbn [List.filter].
    rewrite IH; [|intros r [<-|Hr]; apply HP; [left | right; right]; auto | exact HS].
    destruct (date_is v y); reflexivity.
Qed.

Lemma fold_insert_filter_date (v : Z) (l acc : list record) :
  dates_parse (acc ++ l) -> Sorted date_le acc ->
  List.filter (date_is v) (fold_left (fun acc x => insert_sorted by_date_asc x acc) l acc) =
  List.filter (date_is v) acc ++ List.filter (date_is v) l.
Proof.
  revert acc; induction l as [|x l IH]; intros acc HP HS; simpl; [rewrite app_nil_r; reflexivity|].
  assert (HPx : dates_parse (x :: acc))
    by (intros r [<-|Hr]; apply HP, in_or_app; [right; left | left]; auto).
  rewrite IH.
  - rewrite (insert_sorted_filter_date v x acc HPx
               (@Sorted_StronglySorted record date_le date_le_trans acc HS)).
    rewrite <- app_assoc. simpl. destruct (date_is v x); reflexivity.
  - intros r Hr. apply HP.
    apply (Permutation_in r (Permutation_app_tail l (insert_sorted_perm by_date_asc x acc))) in Hr.
    apply in_app_or in Hr as [[<-|Hr]|Hr]; apply in_or_app; [right; left | left | right; right]; auto.
  - apply insert_sorted_Sorted; auto.
Qed.

(** The sort of the merge is stable: the records of one date keep their
    order, the stored ones first, then the new ones. *)
Theorem merge_stable_per_date (D u : list record) (v : Z) :
  dates_parse (D ++ u) ->
  List.filter (date_is v) (merge D u) = List.filter (date_is v) D ++ List.filter (date_is v) u.
Proof.
  intros HP. unfold merge, js_sort. rewrite fold_insert_filter_date; [| exact HP | constructor].
  simpl. apply filter_app.
Qed.


Lemma insert_desc_head_max (x : record) (acc : list record) :
  dates_parse (x :: acc) ->
  (acc = [] \/ exists h t th, acc = h :: t /\ parseCustomDate (extraction_date h) = Some th /\
     forall z, In z acc -> exists tz, parseCustomDate (extraction_date z) = Some tz /\ tz <= th) ->
  exists h t th, insert_sorted by_date_desc x acc = h :: t /\
    parseCustomDate (extraction_date h) = Some th /\
    forall z, In z (x :: acc) -> exists tz, parseCustomDate (extraction_date z) = Some tz /\ tz <= th.
Proof.
  intros HP Hacc.
  assert (Px : parseCustomDate (extraction_date x) <> None) by (apply HP; left; auto).
  destruct (parseCustomDate (extraction_date x)) as [px|] eqn:Ex; [|congruence].
  destruct Hacc as [->|[h [t [th [-> [Eh Hall]]]]]].
  - exists x, [], px. split; [reflexivity|]. split; [exact Ex|].
    intros z [<-|[]]. exists px. split; [exact Ex | lia].
  - assert (Cmp : SortCompare by_date_desc x h = th - px)
      by (unfold SortCompare, by_date_desc, by_date_asc; rewrite Ex, Eh; reflexivity).
    simpl insert_sorted. rewrite Cmp.
    destruct (th - px <? 0) eqn:C.
    + apply Z.ltb_lt in C. exists x, (h :: t), px. split; [reflexivity|]. split; [exact Ex|].
      intros z [<-|Hz]; [exists px; split; [exact Ex | lia]|].
      destruct (Hall z Hz) as [tz [Ez Le]]. exists tz. split; [exact Ez | lia].
    + apply Z.ltb_ge in C. exists h, (insert_sorted by_date_desc x t), th.
      split; [reflexivity|]. split; [exact Eh|].
      intros z [<-|Hz]; [exists px; split; [exact Ex | lia]|]. apply Hall. exact Hz.
Qed.

Lemma fold_desc_head_max (l acc : list record) :
  dates_parse (acc ++ l) -> l <> [] ->
  (acc = [] \/ exists h t th, acc = h :: t /\ parseCustomDate (extraction_date h) = Some th /\
     forall z, In z acc -> exists tz, parseCustomDate (extraction_date z) = Some tz /\ tz <= th) ->
  exists h t th, fold_left (fun acc x => insert_sorted by_date_desc x acc) l acc = h :: t /\
    parseCustomDate (extraction_date h) = Some th /\
    forall z, In z (acc ++ l) -> exists tz, parseCustomDate (extraction_date z) = Some tz /\ tz <= th.
Proof.
  revert acc. induction l as [|x l IH]; intros acc HP Hne Hacc; [congruence|].
  assert (HPx : dates_parse (x :: acc))
    by (intros r [<-|Hr]; apply HP, in_or_app; [right; left | left]; auto).
  destruct (insert_desc_head_max x acc HPx Hacc) as [h [t [th [Ei [Eh Hall]]]]].
  assert (Hin : forall z, In z (insert_sorted by_date_desc x acc) <-> In z (x :: acc))
    by (intros z; split; apply Permutation_in;
        [apply insert_sorted_perm | apply Permutation_sym, insert_sorted_perm]).
  destruct l as [|y l'].
  - simpl. exists h, t, th. split; [exact Ei|]. split; [exact Eh|].
    intros z Hz. apply Hall. apply in_app_or in Hz as [Hz|[<-|[]]]; [right; exact Hz | left; reflexivity].
  - simpl fold_left. destruct (IH (insert_sorted by_date_desc x acc)) as [h' [t' [th' [E' [Eh' Hall']]]]].
    + intros r Hr. apply in_app_or in Hr as [Hr|Hr].
      * apply Hin in Hr. apply HPx. exact Hr.
      * apply HP. apply in_or_app. right. right. exact Hr.
    + discriminate.
    + right. exists h, t, th. split; [exact Ei|]. split; [exact Eh|].
      intros z Hz. apply Hall, Hin. exact Hz.
    + exists h', t', th'. split; [exact E'|]. split; [exact Eh'|].
      intros z Hz. apply Hall'. apply in_app_or in Hz as [Hz|[<-|Hz]]; apply in_or_app.
      * left. apply Hin. right. exact Hz.
      * left. apply Hin. left. reflexivity.
      * right. exact Hz.
Qed.

(** [findLatestExtractionDate] returns the date of a record of the data
    whose parsed date is not before any other record's. *)
Theorem findLatestExtractionDate_is_max (D : list record) (d : string) :
  dates_parse D -> findLatestExtractionDate D = Some d ->
  (exists r, In r D /\ extraction_date r = d) /\
  exists td, parseCustomDate d = Some td /\
    forall r, In r D -> exists tr, parseCustomDate (extraction_date r) = Some tr /\ tr <= td.
Proof.
  intros HP Hd. split; [exact (findLatestExtractionDate_In D d Hd)|].
  unfold findLatestExtractionDate in Hd.
  destruct D as [|x xs]; [discriminate|]. simpl Nat.eqb in Hd. cbv iota in Hd.
  destruct (fold_desc_head_max (x :: xs) [] HP ltac:(discriminate) (or_introl eq_refl))
    as [h [t [th [E [Eh Hall]]]]].
  unfold js_sort in Hd. rewrite E in Hd. injection Hd as <-.
  exists th. split; [exact Eh|]. intros r Hr. apply Hall. exact Hr.
Qed.

Lemma findLatestExtractionDate_is_max_witness :
  findLatestExtractionDate [rec1; rec0] = Some "16.03.2023"%string /\
  exists td, parseCustomDate "16.03.2023" = Some td /\
    forall r, In r [rec1; rec0] ->
      exists tr, parseCustomDate (extraction_date r) = Some tr /\ tr <= td.
Proof.
  assert (Hd : findLatestExtractionDate [rec1; rec0] = Some "16.03.2023"%string)
    by (vm_compute; reflexivity).
  split; [exact Hd|].
  apply (findLatestExtractionDate_is_max [rec1; rec0] "16.03.2023"); [|exact Hd].
  intros r [<-|[<-|[]]]; vm_compute; discriminate.
Defined.

(* ------------------------------------------------------------------ *)
(** ** Deduplication *)

(** Deduplicating against a concatenation is deduplicating against each
    part in turn; deduplicating twice changes nothing; a batch checked
    against itself keeps nothing. *)
Theorem filterDuplicates_algebra (e1 e2 n : list record) :
  filterDuplicates (e1 ++ e2) n = filterDuplicates e2 (filterDuplicates e1 n) /\
  filterDuplicates e1 (filterDuplicates e1 n) = filterDuplicates e1 n /\
  filterDuplicates n n = [].
Proof.
  split; [|split].
  - unfold filterDuplicates. induction n as [|x n IH]; simpl; [reflexivity|].
    rewrite existsb_app, negb_orb.
    destruct (existsb (fun existingEntry => same_entry existingEntry x) e1); simpl.
    + exact IH.
    + destruct (negb (existsb _ e2)); simpl; rewrite IH; reflexivity.
  - unfold filterDuplicates at 1 2. induction n as [|x n IH]; simpl; [reflexivity|].
    destruct (negb (existsb (fun existingEntry => same_entry existingEntry x) e1)) eqn:E; simpl.
    + rewrite E. f_equal. exact IH.
    + exact IH.
  - apply filterDuplicates_all_present. intros r Hr. exists r. split; [exact Hr|].
    apply same_entry_iff. reflexivity.
Qed.

(** A run that gets back, as new data, a batch it has just written, writes
    nothing: every record of the batch is now in the store. *)
Theorem rerun_same_batch_writes_nothing (tz now1 now2 : Z) (callApi : api)
    (writeFile1 writeFile2 : fs_write) (B : list record) (file : store_file) :
  (forall s e, fetchData callApi s e = Some (JArr B)) ->
  wrote (fetchAllDataIncremental tz now1 callApi writeFile1 file) = true ->
  store (fetchAllDataIncremental tz now2 callApi writeFile2
           (store (fetchAllDataIncremental tz now1 callApi writeFile1 file)))
    = store (fetchAllDataIncremental tz now1 callApi writeFile1 file) /\
  wrote (fetchAllDataIncremental tz now2 callApi writeFile2
           (store (fetchAllDataIncremental tz now1 callApi writeFile1 file)))
    = false.
Proof.
  intros HF Hw.
  assert (HS : exists M, store (fetchAllDataIncremental tz now1 callApi writeFile1 file) =
                           FileText (Some (JArr M)) /\
                 filterDuplicates M B = []).
  { revert Hw. unfold fetchAllDataIncremental.
    destruct (next_window tz (formatDate now1) (readExistingData file)) as [w|]; [|discriminate].
    rewrite HF.
    destruct (Nat.eqb _ 0); [discriminate|].
    destruct (writeFile1 _); [|discriminate]. intros _. simpl.
    eexists; split; [reflexivity|].
    apply filterDuplicates_all_present. intros b Hb.
    destruct (existsb (fun e => same_entry e b) (readExistingData file)) eqn:Ex.
    - apply existsb_exists in Ex as [e [He Hs]]. exists e. split; [|exact Hs].
      apply (Permutation_in e (Permutation_sym (merge_perm _ _))). apply in_or_app. left. exact He.
    - exists b. split; [|apply same_entry_iff; reflexivity].
      apply (Permutation_in b (Permutation_sym (merge_perm _ _))). apply in_or_app. right.
      unfold filterDuplicates. apply filter_In. split; [exact Hb|]. rewrite Ex. reflexivity. }
  destruct HS as [M [-> HM]].
  unfold fetchAllDataIncremental. simpl readExistingData.
  destruct (next_window tz (formatDate now2) M) as [w|]; [|split; reflexivity].
  rewrite HF, HM. split; reflexivity.
Qed.

Lemma rerun_same_batch_writes_nothing_witness :
  wrote (fetchAllDataIncremental 0 noon_2023_04_10 (api_returning [rec1]) write_ok
           (store (fetchAllDataIncremental 0 noon_2023_04_10 (api_returning [rec1]) write_ok
                     (FileText (Some (JArr [rec0])))))) = false.
Proof.
  apply (rerun_same_batch_writes_nothing 0 noon_2023_04_10 noon_2023_04_10 (api_returning [rec1])
           write_ok write_ok [rec1] (FileText (Some (JArr [rec0])))).
  - intros s e. reflexivity.
  - vm_compute. reflexivity.
Defined.

(* ------------------------------------------------------------------ *)
(** ** Dates that do not parse *)

Lemma parseCustomDate_out_of_range (y m d : Z) :
  0 <= y <= 9999 -> 0 <= m <= 99 -> 0 <= d <= 99 -> (m < 1 \/ 12 < m \/ d < 1 \/ 31 < d) ->
  parseCustomDate (ddmmyyyy y m d) = None.
Proof.
  intros Hy Hm Hd Hr.
  destruct (pad4_digits y Hy) as [a1 [a2 [a3 [a4 [Py [Ha1 [Ha2 [Ha3 [Ha4 Ey]]]]]]]]].
  destruct (pad2_digits m Hm) as [b1 [b2 [Pm [Hb1 [Hb2 Em]]]]].
  destruct (pad2_digits d Hd) as [c1 [c2 [Pd [Hc1 [Hc2 Ed]]]]].
  unfold parseCustomDate, ddmmyyyy. rewrite Py, Pm, Pd.
  cbn -[digit_char digit_val Z.mul Z.add].
  rewrite !digit_char_not_dot by assumption.
  cbn -[digit_char digit_val Z.mul Z.add].
  unfold parse_iso_date. rewrite !digit_val_char by assumption.
  cbn -[digit_char MakeDay Z.mul Z.add Z.leb].
  rewrite Ey, Em, Ed.
  replace ((1 <=? m) && (m <=? 12) && (1 <=? d) && (d <=? 31)) with false
    by (symmetry; apply not_true_iff_false; rewrite !andb_true_iff, !Z.leb_le; lia).
  reflexivity.
Qed.

(** When every record of a nonempty store carries a date dd.mm.yyyy whose
    month is outside 1..12 or whose day is outside 1..31, the run stops
    before any request: no fetch, no write, exit status 1. (The year is
    at least 32: V8's fallback parser, which also sees these strings,
    then reads the year as a year and rejects them as well; with a
    smaller year it may read the parts in another order.) Which record
    the sort puts first does not matter: all of them are rejected. *)
Theorem unparseable_latest_date_aborts (tz now : Z) (callApi : api) (writeFile : fs_write)
    (D : list record) :
  D <> [] ->
  (forall r, In r D -> exists y m d, extraction_date r = ddmmyyyy y m d /\
     32 <= y <= 9999 /\ 0 <= m <= 99 /\ 0 <= d <= 99 /\ (m < 1 \/ 12 < m \/ d < 1 \/ 31 < d)) ->
  requests (fetchAllDataIncremental tz now callApi writeFile (FileText (Some (JArr D)))) = [] /\
  store (fetchAllDataIncremental tz now callApi writeFile (FileText (Some (JArr D)))) =
    FileText (Some (JArr D)) /\
  wrote (fetchAllDataIncremental tz now callApi writeFile (FileText (Some (JArr D)))) = false /\
  exit_code (fetchAllDataIncremental tz now callApi writeFile (FileText (Some (JArr D)))) = 1.
Proof.
  intros Hne Hbad.
  destruct (findLatestExtractionDate_nonempty D Hne) as [dl Hd].
  destruct (findLatestExtractionDate_In D dl Hd) as [r [Hr Hrd]].
  destruct (Hbad r Hr) as [y [m [d [Er [Hy [Hm [Hdd Hout]]]]]]].
  assert (Hp : parseCustomDate dl = None).
  { rewrite <- Hrd, Er. apply parseCustomDate_out_of_range; lia. }
  assert (Hw : next_window tz (formatDate now) D = None).
  { unfold next_window. destruct D as [|r0 D']; [congruence|]. simpl Nat.eqb. cbv iota.
    rewrite Hd. destruct (String.eqb dl ""); [reflexivity|].
    unfold getNextMonthInterval. rewrite Hp. reflexivity. }
  unfold fetchAllDataIncremental. simpl readExistingData. rewrite Hw.
  repeat split; reflexivity.
Qed.

Lemma unparseable_latest_date_aborts_witness :
  exit_code (fetchAllDataIncremental 0 noon_2023_04_10 (api_returning []) write_ok
               (FileText (Some (JArr [sample 1 "32.04.2023"; sample 2 "05.13.2023"])))) = 1.
Proof.
  apply (unparseable_latest_date_aborts 0 noon_2023_04_10 (api_returning []) write_ok
           [sample 1 "32.04.2023"; sample 2 "05.13.2023"]).
  - discriminate.
  - intros r [<-|[<-|[]]].
    + exists 2023, 4, 32. split; [reflexivity | lia].
    + exists 2023, 13, 5. split; [reflexivity | lia].
Defined.

(** In UTC a run on a nonempty store whose dates all parse asks for the
    month after the latest date: from its first day to its last day, or
    to today when the last day is later. A year 0..99 is read by the
    Date constructor as 1900 + y. *)
Theorem utc_run_requests_next_month (now : Z) (callApi : api) (writeFile : fs_write)
    (D : list record) (d : string) (t : Z) :
  D <> [] -> dates_parse D -> findLatestExtractionDate D = Some d -> parseCustomDate d = Some t ->
  let '(y1, m1) := next_month (date_ctor_year (YearFromTime t), MonthFromTime t + 1) in
  requests (fetchAllDataIncremental 0 now callApi writeFile (FileText (Some (JArr D)))) =
    [{| startDate := format_ymd (y1, m1, 1);
        endDate := if str_gt (format_ymd (y1, m1, days_in_month y1 m1)) (formatDate now)
                   then formatDate now else format_ymd (y1, m1, days_in_month y1 m1) |}].
Proof.
  intros Hne _ Hd Ht. pose proof (getNextMonthInterval_utc_spec d t Ht) as Hg.
  destruct (next_month (date_ctor_year (YearFromTime t), MonthFromTime t + 1)) as [y1 m1].
  assert (Hw : next_window 0 (formatDate now) D =
    Some {| startDate := format_ymd (y1, m1, 1);
            endDate := if str_gt (format_ymd (y1, m1, days_in_month y1 m1)) (formatDate now)
                       then formatDate now else format_ymd (y1, m1, days_in_month y1 m1) |}).
  { unfold next_window. destruct D as [|r D']; [congruence|]. simpl Nat.eqb. cbv iota.
    rewrite Hd. destruct (String.eqb_spec d "") as [->|_].
    - rewrite parseCustomDate_empty in Ht. discriminate.
    - rewrite Hg. reflexivity. }
  unfold fetchAllDataIncremental. simpl readExistingData. rewrite Hw.
  destruct (fetchData callApi _ _) as [[]|]; try reflexivity.
  destruct (Nat.eqb _ 0); [reflexivity|]. destruct (writeFile _); reflexivity.
Qed.

Lemma utc_run_requests_next_month_witness :
  requests (fetchAllDataIncremental 0 noon_2023_04_10 (api_returning []) write_ok
              (FileText (Some (JArr [rec0])))) =
    [{| startDate := "2023-04-01"; endDate := "2023-04-10" |}].
Proof.
  pose proof (utc_run_requests_next_month noon_2023_04_10 (api_returning []) write_ok [rec0]
                "15.03.2023" 1678838400000 ltac:(discriminate)
                ltac:(intros r [<-|[]]; vm_compute; discriminate)
                ltac:(vm_compute; reflexivity) ltac:(vm_compute; reflexivity)) as H.
  vm_compute in H. exact H.
Defined.

Lemma parseCustomDate_formatDate_roundtrip_witness :
  parseCustomDate "29.02.2024" = Some (days_from_civil 2024 2 29 * msPerDay) /\
  formatDate (days_from_civil 2024 2 29 * msPerDay) = "2024-02-29"%string.
Proof.
  exact (parseCustomDate_formatDate_roundtrip 2024 2 29 ltac:(lia) ltac:(lia)
           ltac:(change (days_in_month 2024 2) with 29; lia)).
Defined.

Lemma parseCustomDate_day_overflow_witness :
  parseCustomDate "31.04.2023" = parseCustomDate "01.05.2023".
Proof.
  exact (parseCustomDate_day_overflow 2023 4 31 ltac:(lia) ltac:(simpl; lia)
           ltac:(lia) ltac:(change (days_in_month 2023 4) with 30; lia)).
Defined.

Lemma getNextMonthInterval_utc_witness :
  getNextMonthInterval 0 "31.01.2024" =
    Some {| startDate := "2024-02-01"; endDate := "2024-02-29" |} /\
  getNextMonthInterval 0 "15.03.0050" =
    Some {| startDate := "1950-04-01"; endDate := "1950-04-30" |}.
Proof.
  pose proof (getNextMonthInterval_utc "31.01.2024" 1706659200000 ltac:(vm_compute; reflexivity)) as H1.
  pose proof (getNextMonthInterval_utc "15.03.0050" (-60582988800000)
                ltac:(vm_compute; reflexivity)) as H2.
  vm_compute in H1. vm_compute in H2. split; [exact H1 | exact H2].
Defined.

Lemma merge_sorted_no_new_identity_witness : merge [rec0; rec1] [] = [rec0; rec1].
Proof.
  apply merge_sorted_no_new_identity. unfold dataset_sorted.
  apply Sorted_cons; [repeat constructor | apply HdRel_cons].
  exists 1678838400000, 1678924800000.
  split; [vm_compute; reflexivity|]. split; [vm_compute; reflexivity|]. lia.
Defined.

Lemma merge_stable_per_date_witness :
  List.filter (date_is 1678838400000) (merge [rec0] [sample 2000 "15.03.2023"; rec1]) =
    [rec0; sample 2000 "15.03.2023"].
Proof.
  rewrite (merge_stable_per_date [rec0] [sample 2000 "15.03.2023"; rec1] 1678838400000).
  - vm_compute. reflexivity.
  - intros r [<-|[<-|[<-|[]]]]; vm_compute; discriminate.
Defined.
